(** * Client-certificate criterion of the policy compiler

    A shallow embedding of [pkg/policy/criteria/client_certificate.go]:
    the six condition builders, the fingerprint canonicaliser and
    [GenerateRule], together with the parts of the Go standard library
    and of the Rego AST they rely on.

    Go strings are byte strings and are modelled by [string]; a function
    returning [error] or [(T, error)] returns a [result]. *)

From Stdlib Require Import String Ascii List Bool Arith NArith Lia Permutation.
Import ListNotations.
Local Open Scope string_scope.
Local Open Scope list_scope.

Set Implicit Arguments.
Set Warnings "-register-all".

(** ** Errors *)

(** A Go [(T, error)] pair: [Ok v] when the error is [nil], [Err msg]
    with the error's text otherwise. *)
Inductive result (A : Type) : Type :=
| Ok (v : A)
| Err (msg : string).
Arguments Err {A} msg.

Definition bind {A B : Type} (r : result A) (k : A -> result B) : result B :=
  match r with
  | Ok v => k v
  | Err msg => Err msg
  end.

Notation "x <- r ;; k" := (bind r (fun x => k))
  (at level 61, r at next level, right associativity).

Definition is_ok {A : Type} (r : result A) : bool :=
  match r with Ok _ => true | Err _ => false end.

(** [Contains msg s]: the text [s] occurs in [msg]. *)
Definition Contains (msg s : string) : Prop :=
  exists pre post : string, msg = (pre ++ s ++ post)%string.

(** ** Bytes and character classes *)

Definition byte_le (a b : ascii) : bool := (N_of_ascii a <=? N_of_ascii b)%N.

(** A bracket expression such as [[0-9a-f]]: a list of inclusive ranges
    (a single character [c] is the range [c-c]). *)
Definition cclass := list (ascii * ascii).

Definition in_class (cs : cclass) (c : ascii) : bool :=
  existsb (fun r => byte_le (fst r) c && byte_le c (snd r)) cs.

Definition chars (s : string) : list ascii := list_ascii_of_string s.

(** ** Regular expressions ([regexp]) *)

(** The syntax the three patterns of the file need.  Each pattern is
    anchored with [^] and [$], which in Go (no flags) are the start and
    the end of the text, so [MatchString] holds exactly when the whole
    string is in the language of the pattern between the anchors. *)
Inductive regex : Type :=
| Void
| Eps
| Class (cs : cclass)
| Cat (r1 r2 : regex)
| Alt (r1 r2 : regex)
| Star (r : regex).

(** [r{n}] *)
Fixpoint Rep (n : nat) (r : regex) : regex :=
  match n with
  | O => Eps
  | S n' => Cat r (Rep n' r)
  end.

(** [r?] *)
Definition Opt (r : regex) : regex := Alt Eps r.

(** [r{0,n}] *)
Fixpoint RepUpTo (n : nat) (r : regex) : regex :=
  match n with
  | O => Eps
  | S n' => Opt (Cat r (RepUpTo n' r))
  end.

Fixpoint nullable (r : regex) : bool :=
  match r with
  | Void => false
  | Eps => true
  | Class _ => false
  | Cat r1 r2 => nullable r1 && nullable r2
  | Alt r1 r2 => nullable r1 || nullable r2
  | Star _ => true
  end.

(** Brzozowski derivative of [r] by the byte [c]. *)
Fixpoint deriv (c : ascii) (r : regex) : regex :=
  match r with
  | Void => Void
  | Eps => Void
  | Class cs => if in_class cs c then Eps else Void
  | Cat r1 r2 =>
      if nullable r1
      then Alt (Cat (deriv c r1) r2) (deriv c r2)
      else Cat (deriv c r1) r2
  | Alt r1 r2 => Alt (deriv c r1) (deriv c r2)
  | Star r1 => Cat (deriv c r1) (Star r1)
  end.

Fixpoint rmatch (r : regex) (s : list ascii) : bool :=
  match s with
  | [] => nullable r
  | c :: s' => rmatch (deriv c r) s'
  end.

(** [re.MatchString(s)] for a pattern [^r$]. *)
Definition MatchString (r : regex) (s : string) : bool := rmatch r (chars s).

(** The language of a pattern, as a relation. *)
Inductive Matches : regex -> list ascii -> Prop :=
| MEps : Matches Eps []
| MClass cs c : in_class cs c = true -> Matches (Class cs) [c]
| MCat r1 r2 s1 s2 : Matches r1 s1 -> Matches r2 s2 -> Matches (Cat r1 r2) (s1 ++ s2)
| MAltL r1 r2 s : Matches r1 s -> Matches (Alt r1 r2) s
| MAltR r1 r2 s : Matches r2 s -> Matches (Alt r1 r2) s
| MStar0 r : Matches (Star r) []
| MStarS r s1 s2 : Matches r s1 -> Matches (Star r) s2 -> Matches (Star r) (s1 ++ s2).

(** ** [strings] *)

(** [strings.ReplaceAll(s, old, new)] for a one-byte [old]. *)
Fixpoint strings_ReplaceAll (s : string) (old : ascii) (new : string) : string :=
  match s with
  | EmptyString => EmptyString
  | String c s' =>
      if Ascii.eqb c old
      then (new ++ strings_ReplaceAll s' old new)%string
      else String c (strings_ReplaceAll s' old new)
  end.

Definition lower_byte (c : ascii) : ascii :=
  if byte_le "A" c && byte_le c "Z"
  then ascii_of_N (N_of_ascii c + 32)
  else c.

(** [strings.ToLower] on ASCII text (the only text it is applied to: the
    argument has matched [longCertFingerprintRE]). *)
Fixpoint strings_ToLower (s : string) : string :=
  match s with
  | EmptyString => EmptyString
  | String c s' => String (lower_byte c) (strings_ToLower s')
  end.

(** ** [encoding/base64] *)

(** Value of a byte in the standard alphabet [A-Za-z0-9+/]. *)
Definition sextet (c : ascii) : option N :=
  let n := N_of_ascii c in
  if byte_le "A" c && byte_le c "Z" then Some (n - 65)%N
  else if byte_le "a" c && byte_le c "z" then Some (n - 97 + 26)%N
  else if byte_le "0" c && byte_le c "9" then Some (n - 48 + 52)%N
  else if Ascii.eqb c "+" then Some 62%N
  else if Ascii.eqb c "/" then Some 63%N
  else None.

Definition padChar : ascii := "="%char.

Definition is_newline (c : ascii) : bool :=
  Ascii.eqb c "010" || Ascii.eqb c "013".

Definition low_byte (n : N) : Byte.byte := byte_of_ascii (ascii_of_N n).

(** The 24-bit group [a<<18 | b<<12 | c<<6 | d] of one quantum. *)
Definition quantum (a b c d : N) : N :=
  N.lor (N.lor (N.shiftl a 18) (N.shiftl b 12)) (N.lor (N.shiftl c 6) d).

(** Decoding of the input once CR and LF are dropped: quanta of four
    alphabet bytes give three bytes each; the last quantum may be
    [xx==] (one byte) or [xxx=] (two bytes); anything else, and
    anything after padding, is corrupt input.  Trailing bits of a padded
    quantum are not checked (the encoding is not [Strict]). *)
Fixpoint decode_quanta (src : list ascii) : option (list Byte.byte) :=
  match src with
  | [] => Some []
  | c1 :: c2 :: c3 :: c4 :: rest =>
      match sextet c1, sextet c2 with
      | Some a, Some b =>
          match sextet c3, sextet c4 with
          | Some c, Some d =>
              let v := quantum a b c d in
              option_map
                (fun tl => low_byte (N.shiftr v 16) :: low_byte (N.shiftr v 8)
                           :: low_byte v :: tl)
                (decode_quanta rest)
          | Some c, None =>
              match rest with
              | [] =>
                  if Ascii.eqb c4 padChar
                  then let v := quantum a b c 0 in
                       Some [low_byte (N.shiftr v 16); low_byte (N.shiftr v 8)]
                  else None
              | _ :: _ => None
              end
          | None, _ =>
              match rest with
              | [] =>
                  if Ascii.eqb c3 padChar && Ascii.eqb c4 padChar
                  then Some [low_byte (N.shiftr (quantum a b 0 0) 16)]
                  else None
              | _ :: _ => None
              end
          end
      | _, _ => None
      end
  | _ => None
  end.

(** [base64.StdEncoding.DecodeString]: [Some b] when the error is [nil]. *)
Definition base64_DecodeString (s : string) : option (list Byte.byte) :=
  decode_quanta (filter (fun c => negb (is_newline c)) (chars s)).

(** ** [net/url] *)

(** The part of Go's [net/url] that decides whether [url.Parse] returns
    an error, function by function.  The library is outside the
    repository; [parseAuthority] (the parsing of user information, host
    and port) is left as a parameter.  [Parse] calls [parse] with
    [viaRequest = false], so the branches of [parse] for a request URI are
    left out. *)
Module url.

(** [strings.Cut(s, sep)] for a one-byte [sep]: the text before the first
    [sep], the text after it, and whether [sep] was found. *)
Fixpoint Cut (s : string) (sep : ascii) : string * string * bool :=
  match s with
  | EmptyString => (EmptyString, EmptyString, false)
  | String c s' =>
      if Ascii.eqb c sep then (EmptyString, s', true)
      else match Cut s' sep with
           | (before, after, found) => (String c before, after, found)
           end
  end.

Definition before (s : string) (sep : ascii) : string := fst (fst (Cut s sep)).

(** [strings.Count(s, sep)] for a one-byte [sep]. *)
Fixpoint Count (s : string) (sep : ascii) : nat :=
  match s with
  | EmptyString => 0
  | String c s' => (if Ascii.eqb c sep then 1 else 0) + Count s' sep
  end.

(** [strings.Index(s, sep)] for a one-byte [sep]: [None] for [-1]. *)
Fixpoint Index (s : string) (sep : ascii) : option nat :=
  match s with
  | EmptyString => None
  | String c s' =>
      if Ascii.eqb c sep then Some 0 else option_map S (Index s' sep)
  end.

Definition HasPrefix (s p : string) : bool := String.prefix p s.

(** [strings.HasSuffix(s, sep)] for a one-byte [sep]. *)
Fixpoint HasSuffix (s : string) (sep : ascii) : bool :=
  match s with
  | EmptyString => false
  | String c EmptyString => Ascii.eqb c sep
  | String _ s' => HasSuffix s' sep
  end.

(** [s[i:]] and [s[:i]]. *)
Definition from (i : nat) (s : string) : string := substring i (String.length s - i) s.
Definition upto (i : nat) (s : string) : string := substring 0 i s.

Definition in_range (lo hi c : ascii) : bool := byte_le lo c && byte_le c hi.

(** [b < ' ' || b == 0x7f] for some byte [b] of [s]. *)
Definition stringContainsCTLByte (s : string) : bool :=
  existsb (fun b => (N_of_ascii b <? 32)%N || (N_of_ascii b =? 127)%N) (chars s).

Definition ishex (c : ascii) : bool :=
  in_range "0" "9" c || in_range "a" "f" c || in_range "A" "F" c.

(** The loop of [getScheme] from index [i], [rest] being [rawURL[i:]]:
    the scheme and what follows its colon, or the error
    [missing protocol scheme]. *)
Fixpoint getScheme_from (i : nat) (rest rawURL : string) : result (string * string) :=
  match rest with
  | EmptyString => Ok (EmptyString, rawURL)
  | String c rest' =>
      if in_range "a" "z" c || in_range "A" "Z" c
      then getScheme_from (S i) rest' rawURL
      else if in_range "0" "9" c || Ascii.eqb c "+" || Ascii.eqb c "-" || Ascii.eqb c "."
      then (if Nat.eqb i 0 then Ok (EmptyString, rawURL)
            else getScheme_from (S i) rest' rawURL)
      else if Ascii.eqb c ":"
      then (if Nat.eqb i 0 then Err "missing protocol scheme"
            else Ok (upto i rawURL, rest'))
      else Ok (EmptyString, rawURL)
  end.

Definition getScheme (rawURL : string) : result (string * string) :=
  getScheme_from 0 rawURL rawURL.

(** Whether [unescape(s, mode)] returns no error, for the modes
    [encodePath] and [encodeFragment] (those of [setPath] and
    [setFragment]): every [%] is followed by two hexadecimal digits. *)
Fixpoint unescape_ok (s : string) : bool :=
  match s with
  | EmptyString => true
  | String c rest =>
      if Ascii.eqb c "%"
      then match rest with
           | String h1 (String h2 rest') => ishex h1 && ishex h2 && unescape_ok rest'
           | _ => false
           end
      else unescape_ok rest
  end.

(** [true] when the error is [nil]. *)
Definition setPath (p : string) : bool := unescape_ok p.
Definition setFragment (f : string) : bool := unescape_ok f.

Section Parse.

(** Whether [parseAuthority] returns no error: the one part of [Parse]
    that is not embedded. *)
Variable parseAuthority : string -> bool.

(** [parse(rawURL, false)]: [true] when the error is [nil]. *)
Definition parse (rawURL : string) : bool :=
  if stringContainsCTLByte rawURL then false
  else if String.eqb rawURL "*" then true
  else
    match getScheme rawURL with
    | Err _ => false
    | Ok (scheme, rest0) =>
        let rest :=
          if HasSuffix rest0 "?" && Nat.eqb (Count rest0 "?") 1
          then upto (String.length rest0 - 1) rest0
          else before rest0 "?" in
        if negb (HasPrefix rest "/") && negb (String.eqb scheme "")
        then true
        else if negb (HasPrefix rest "/")
                && existsb (Ascii.eqb ":") (chars (before rest "/"))
        then false
        else if (negb (String.eqb scheme "") || negb (HasPrefix rest "///"))
                && HasPrefix rest "//"
        then
          let authority0 := from 2 rest in
          match Index authority0 "/" with
          | Some i => parseAuthority (upto i authority0) && setPath (from i authority0)
          | None => parseAuthority authority0 && setPath EmptyString
          end
        else setPath rest
    end.

(** [url.Parse(rawURL)]: [true] when the error is [nil]. *)
Definition Parse (rawURL : string) : bool :=
  match Cut rawURL "#" with
  | (u, frag, _) =>
      if negb (parse u) then false
      else if String.eqb frag "" then true
      else setFragment frag
  end.

End Parse.

End url.

(** ** Configuration values ([parser]) *)

Module parser.

(** Modelled from the spec: the [parser] package is not among the sources;
    section 3 gives a configuration value as a String, a Sequence of
    values or an Object.  [Object] is a Go map ([GenerateRule] ranges over
    it with a string key): its entries are listed in the order in which a
    [range] statement visits them, an order Go leaves unspecified, so two
    lists that are permutations of each other stand for the same map. *)
Inductive Value : Type :=
| String (s : string)
| Array (elems : list Value)
| Object (entries : list (string * Value)).

End parser.

(** [%T] of a configuration value. *)
Definition fmt_T (data : parser.Value) : string :=
  match data with
  | parser.String _ => "parser.String"
  | parser.Array _ => "parser.Array"
  | parser.Object _ => "parser.Object"
  end.

(** Two entry lists of the same map: distinct keys, the same entries. *)
Definition same_object (o1 o2 : list (string * parser.Value)) : Prop :=
  NoDup (map fst o1) /\ Permutation o1 o2.

(** ** Rule bodies ([ast]) *)

Module ast.

(** Terms of the policy language.  [ast.NewTerm] wraps a value in a term
    and changes nothing else, so values and terms are one type; the
    operator of a call is kept as its dotted name. *)
Inductive Term : Type :=
| VarTerm (name : string)
| StringTerm (s : string)
| NumberTerm (n : N)
| ArrayTerm (elems : list Term)
| RefTerm (head : Term) (path : list Term)
| CallTerm (op : string) (args : list Term).

(** Statements: [ast.Assign.Expr] is [lhs := rhs], [ast.Equal.Expr] is
    [lhs == rhs], [SomeDecl] is [some x, ...]. *)
Inductive Expr : Type :=
| Assign (lhs rhs : Term)
| Equal (lhs rhs : Term)
| SomeDecl (symbols : list Term).

Definition Body := list Expr.

(** [ast.String(s)] wrapped by [ast.NewTerm]. *)
Definition String (s : string) : Term := StringTerm s.

(** The wildcard [_]. *)
Definition Wildcard : Term := VarTerm "_".

(** [a.f1.f2...] *)
Definition dotted (x : string) (fields : list string) : Term :=
  RefTerm (VarTerm x) (map StringTerm fields).

End ast.

(** Modelled from the spec: the reason codes are declared outside the
    sources; section 3 gives them as a fixed pair of opaque identifiers. *)
Inductive Reason : Type :=
| ReasonClientCertificateOK
| ReasonClientCertificateUnauthorized.

(** Modelled from the spec: [NewCriterionRule] is not among the sources;
    by section 4.4 (5) it wraps the finished body together with the
    criterion's name and its two reason codes into a rule. *)
Record Rule : Type := NewCriterionRule {
  rule_name : string;
  rule_ok : Reason;
  rule_fail : Reason;
  rule_body : ast.Body
}.

(** The body [ast.MustParseBody] returns for the fact-extraction text. *)
Definition clientCertificateBaseBody : ast.Body :=
  [ ast.Assign (ast.VarTerm "cert")
      (ast.RefTerm
         (ast.CallTerm "crypto.x509.parse_certificates"
            [ast.CallTerm "trim_space"
               [ast.dotted "input" ["http"; "client_certificate"; "leaf"]]])
         [ast.NumberTerm 0]);
    ast.Assign (ast.VarTerm "fingerprint")
      (ast.CallTerm "crypto.sha256"
         [ast.CallTerm "base64.decode" [ast.dotted "cert" ["Raw"]]]);
    ast.Assign (ast.VarTerm "spki_hash")
      (ast.CallTerm "base64.encode"
         [ast.CallTerm "hex.decode"
            [ast.CallTerm "crypto.sha256"
               [ast.CallTerm "base64.decode"
                  [ast.dotted "cert" ["RawSubjectPublicKeyInfo"]]]]]);
    ast.Assign (ast.VarTerm "san_email_addresses") (ast.dotted "cert" ["EmailAddresses"]);
    ast.Assign (ast.VarTerm "san_dns_names") (ast.dotted "cert" ["DNSNames"]);
    ast.Assign (ast.VarTerm "san_ip_addresses") (ast.dotted "cert" ["IPAddresses"]);
    ast.Assign (ast.VarTerm "san_uris") (ast.dotted "cert" ["URIs"]) ].

(** The body [ast.MustParseBody] returns for
    [some san_uri_index; sprintf("%s://%s%s", [...]) == allowed_san_uris[_]]. *)
Definition uriCheckBody : ast.Body :=
  let part f := ast.RefTerm (ast.VarTerm "san_uris")
                  [ast.VarTerm "san_uri_index"; ast.StringTerm f] in
  [ ast.SomeDecl [ast.VarTerm "san_uri_index"];
    ast.Equal
      (ast.CallTerm "sprintf"
         [ast.StringTerm "%s://%s%s";
          ast.ArrayTerm [part "Scheme"; part "Host"; part "Path"]])
      (ast.RefTerm (ast.VarTerm "allowed_san_uris") [ast.Wildcard]) ].

(** ** The patterns *)

Definition hex_upper : cclass := [("0", "9"); ("A", "F")]%char.
Definition hex_lower : cclass := [("0", "9"); ("a", "f")]%char.
Definition colon : cclass := [(":", ":")]%char.

(** [^[0-9A-F]{2}(:[0-9A-F]{2}){31}$] *)
Definition longCertFingerprintRE : regex :=
  Cat (Rep 2 (Class hex_upper)) (Rep 31 (Cat (Class colon) (Rep 2 (Class hex_upper)))).

(** [^[0-9a-f]{64}$] *)
Definition shortCertFingerprintRE : regex := Rep 64 (Class hex_lower).

Definition dns_first : cclass := [("a", "z"); ("A", "Z"); ("0", "9"); ("_", "_")]%char.
Definition dns_next : cclass :=
  [("a", "z"); ("A", "Z"); ("0", "9"); ("_", "_"); ("-", "-")]%char.

Definition dns_label : regex :=
  Cat (Rep 1 (Class dns_first)) (RepUpTo 62 (Class dns_next)).

(** [^([a-zA-Z0-9_]{1}[a-zA-Z0-9_-]{0,62}){1}(\.[a-zA-Z0-9_]{1}[a-zA-Z0-9_-]{0,62})*[\._]?$] *)
Definition rxDNSName : regex :=
  Cat (Rep 1 dns_label)
    (Cat (Star (Cat (Class [(".", ".")]%char) dns_label))
         (Opt (Class [(".", "."); ("_", "_")]%char))).

(** ** Text search *)

Definition is_prefix (s msg : string) : bool := String.prefix s msg.

(** Decision of [Contains msg s]. *)
Fixpoint containsb (msg s : string) : bool :=
  is_prefix s msg ||
  match msg with
  | EmptyString => false
  | String _ msg' => containsb msg' s
  end.

(** *** Variables of a statement *)

(** The variable a [VarTerm] text names.  The builders pass texts such as
    [allowed_fingerprints[_]], which the printed rule reads as the variable
    [allowed_fingerprints] under a wildcard index: the name is the text
    up to the first bracket. *)
Fixpoint ident_of (name : string) : string :=
  match name with
  | EmptyString => EmptyString
  | String c rest =>
      if Ascii.eqb c "[" then EmptyString else String c (ident_of rest)
  end.

(** What follows the name in a [VarTerm] text. *)
Definition index_of (name : string) : string :=
  let n := String.length (ident_of name) in
  substring n (String.length name - n) name.

(** The variable names a term refers to, the wildcard left out. *)
Fixpoint term_vars (t : ast.Term) : list string :=
  match t with
  | ast.VarTerm name => if String.eqb name "_" then [] else [ident_of name]
  | ast.StringTerm _ => []
  | ast.NumberTerm _ => []
  | ast.ArrayTerm elems => flat_map term_vars elems
  | ast.RefTerm head path => term_vars head ++ flat_map term_vars path
  | ast.CallTerm _ args => flat_map term_vars args
  end.

Definition mem (x : string) (xs : list string) : bool :=
  existsb (String.eqb x) xs.

(** The fact names of the prologue. *)
Definition factNames : list string :=
  ["fingerprint"; "spki_hash"; "san_email_addresses"; "san_dns_names";
   "san_ip_addresses"; "san_uris"].

(** The names constraints of [b] refer to although nothing before them
    binds them, [bound] being bound at the start.  An assignment binds the
    variables of its left side; a [some] declaration binds its symbols when
    [someBinds] is set. *)
Fixpoint unboundRefs (someBinds : bool) (bound : list string) (b : ast.Body)
  : list string :=
  match b with
  | [] => []
  | ast.Assign lhs _ :: b' => unboundRefs someBinds (term_vars lhs ++ bound) b'
  | ast.SomeDecl xs :: b' =>
      unboundRefs someBinds
        ((if someBinds then flat_map term_vars xs else []) ++ bound) b'
  | ast.Equal lhs rhs :: b' =>
      filter (fun x => negb (mem x bound)) (term_vars lhs ++ term_vars rhs)
      ++ unboundRefs someBinds bound b'
  end.

(** The names [b] binds, latest first. *)
Fixpoint binders (someBinds : bool) (b : ast.Body) : list string :=
  match b with
  | [] => []
  | ast.Assign lhs _ :: b' => binders someBinds b' ++ term_vars lhs
  | ast.SomeDecl xs :: b' =>
      binders someBinds b' ++ (if someBinds then flat_map term_vars xs else [])
  | ast.Equal _ _ :: b' => binders someBinds b'
  end.

(** ** Reading a rule body *)

(** Modelled from the spec: the evaluation engine is outside the
    repository.  Sections 3 and 4.2 give what a body asserts: its
    statements hold together; an assignment binds a name to a value; a
    constraint holds when, for some choice of the elements its wildcard
    indices stand for, both sides are defined and equal; a [some]
    declaration introduces a variable that stands for some value. *)
Inductive RVal : Type :=
| RStr (s : string)
| RNum (n : N)
| RArr (elems : list RVal)
| RObj (fields : list (string * RVal)).

Definition Env := list (string * RVal).

Fixpoint lookup (env : Env) (x : string) : option RVal :=
  match env with
  | [] => None
  | (y, v) :: env' => if String.eqb x y then Some v else lookup env' x
  end.

Definition elements (v : RVal) : list RVal :=
  match v with
  | RArr elems => elems
  | RObj fields => map snd fields
  | _ => []
  end.

Definition field (k : string) (v : RVal) : list RVal :=
  match v with
  | RObj fields => match lookup fields k with Some w => [w] | None => [] end
  | _ => []
  end.

Definition index (n : N) (v : RVal) : list RVal :=
  match v with
  | RArr elems => match nth_error elems (N.to_nat n) with Some w => [w] | None => [] end
  | _ => []
  end.

(** One step of a reference path from the value [v]. *)
Definition select (env : Env) (p : ast.Term) (v : RVal) : list RVal :=
  match p with
  | ast.StringTerm k => field k v
  | ast.NumberTerm n => index n v
  | ast.VarTerm x =>
      if String.eqb x "_" then elements v
      else match lookup env x with
           | Some (RNum n) => index n v
           | Some (RStr k) => field k v
           | _ => []
           end
  | _ => []
  end.

(** Every way of taking one element from each list. *)
Fixpoint products {A : Type} (ls : list (list A)) : list (list A) :=
  match ls with
  | [] => [[]]
  | l :: ls' => flat_map (fun x => map (cons x) (products ls')) l
  end.

(** [sprintf] for a format of [%s] verbs with as many string operands. *)
Fixpoint sprintf (fmt : string) (args : list string) : string :=
  match fmt with
  | EmptyString => EmptyString
  | String c rest =>
      match rest with
      | String "s" rest' =>
          if Ascii.eqb c "%"
          then match args with
               | a :: args' => (a ++ sprintf rest' args')%string
               | [] => String c (sprintf rest args)
               end
          else String c (sprintf rest args)
      | _ => String c (sprintf rest args)
      end
  end.

Fixpoint strings_of (vs : list RVal) : option (list string) :=
  match vs with
  | [] => Some []
  | RStr s :: vs' => option_map (cons s) (strings_of vs')
  | _ :: _ => None
  end.

(** The built-in calls a condition makes; any other call is undefined here. *)
Definition call (op : string) (args : list RVal) : list RVal :=
  if String.eqb op "sprintf"
  then match args with
       | [RStr fmt; RArr operands] =>
           match strings_of operands with
           | Some ss => [RStr (sprintf fmt ss)]
           | None => []
           end
       | _ => []
       end
  else [].

(** The values a term can take under [env], one for each choice of the
    elements its wildcards stand for; none when it is undefined. *)
Fixpoint eval (env : Env) (t : ast.Term) : list RVal :=
  match t with
  | ast.VarTerm name =>
      match lookup env (ident_of name) with
      | Some v =>
          if String.eqb (index_of name) "" then [v]
          else if String.eqb (index_of name) "[_]" then elements v
          else []
      | None => []
      end
  | ast.StringTerm s => [RStr s]
  | ast.NumberTerm n => [RNum n]
  | ast.ArrayTerm elems => map RArr (products (map (eval env) elems))
  | ast.RefTerm head path =>
      fold_left (fun vs p => flat_map (select env p) vs) path (eval env head)
  | ast.CallTerm op args => flat_map (call op) (products (map (eval env) args))
  end.

(** [some x, ...]: each symbol stands for some value. *)
Fixpoint declare (xs : list ast.Term) (env : Env) (k : Env -> Prop) : Prop :=
  match xs with
  | [] => k env
  | ast.VarTerm x :: xs' => exists v : RVal, declare xs' ((x, v) :: env) k
  | _ :: _ => False
  end.

(** The body holds under [env]. *)
Fixpoint Sat (env : Env) (b : ast.Body) : Prop :=
  match b with
  | [] => True
  | ast.Assign (ast.VarTerm x) rhs :: b' =>
      exists v : RVal, In v (eval env rhs) /\ Sat ((x, v) :: env) b'
  | ast.Assign _ _ :: _ => False
  | ast.Equal lhs rhs :: b' =>
      (exists v : RVal, In v (eval env lhs) /\ In v (eval env rhs)) /\ Sat env b'
  | ast.SomeDecl xs :: b' => declare xs env (fun env' => Sat env' b')
  end.

(** Modelled from the spec: a SAN URI as the engine exposes it (section 6:
    [Scheme], [Host] and [Path], besides the query and the fragment). *)
Record URL : Type := {
  Scheme : string;
  Host : string;
  Path : string;
  RawQuery : string;
  Fragment : string
}.

Definition url_value (u : URL) : RVal :=
  RObj [("Scheme", RStr (Scheme u)); ("Host", RStr (Host u)); ("Path", RStr (Path u));
        ("RawQuery", RStr (RawQuery u)); ("Fragment", RStr (Fragment u))].

(** [scheme://host] followed by the path. *)
Definition reconstruct (u : URL) : string :=
  (Scheme u ++ "://" ++ Host u ++ Path u)%string.

(** Modelled from the spec: the facts the prologue derives from the leaf
    certificate (section 4.3). *)
Record Facts : Type := {
  fingerprint : string;
  spki_hash : string;
  san_email_addresses : list string;
  san_dns_names : list string;
  san_ip_addresses : list string;
  san_uris : list URL
}.

Definition facts_env (f : Facts) : Env :=
  [("fingerprint", RStr (fingerprint f));
   ("spki_hash", RStr (spki_hash f));
   ("san_email_addresses", RArr (map RStr (san_email_addresses f)));
   ("san_dns_names", RArr (map RStr (san_dns_names f)));
   ("san_ip_addresses", RArr (map RStr (san_ip_addresses f)));
   ("san_uris", RArr (map url_value (san_uris f)))].

(** ** The fingerprint grammars *)

(** 64 lowercase hexadecimal digits. *)
Definition short_form (s : string) : Prop :=
  List.length (chars s) = 64 /\ Forall (fun c => in_class hex_lower c = true) (chars s).

Definition upper_pair (g : ascii * ascii) : Prop :=
  in_class hex_upper (fst g) = true /\ in_class hex_upper (snd g) = true.

Definition colon_group (g : ascii * ascii) : list ascii := [":"%char; fst g; snd g].

(** 32 groups of two uppercase hexadecimal digits, a colon between
    neighbours. *)
Definition long_form (s : string) : Prop :=
  exists (g : ascii * ascii) (gs : list (ascii * ascii)),
    List.length gs = 31 /\ Forall upper_pair (g :: gs) /\
    chars s = fst g :: snd g :: flat_map colon_group gs.

(** The same digits in lowercase and without the colons. *)
Definition lower_no_colon (s : string) : string :=
  string_of_list_ascii
    (map lower_byte (filter (fun c => negb (Ascii.eqb c ":")) (chars s))).

(** ** The DNS grammar *)

(** The bytes a name may hold: those of a label, and the dot. *)
Definition dns_bytes : cclass :=
  [("a", "z"); ("A", "Z"); ("0", "9"); ("_", "_"); ("-", "-"); (".", ".")]%char.

(** A label: a first byte of [[a-zA-Z0-9_]], then at most 62 bytes of
    [[a-zA-Z0-9_-]]. *)
Definition dns_label_form (l : list ascii) : Prop :=
  exists c rest,
    l = c :: rest /\ in_class dns_first c = true /\
    (List.length rest <= 62) /\ Forall (fun x => in_class dns_next x = true) rest.

(** A label, then any number of labels each after a dot, then nothing, a
    dot or an underscore. *)
Definition dns_name_form (s : string) : Prop :=
  exists l0 labels tail,
    dns_label_form l0 /\ Forall dns_label_form labels /\
    (tail = [] \/ tail = ["."%char] \/ tail = ["_"%char]) /\
    chars s = l0 ++ flat_map (fun l => "."%char :: l) labels ++ tail.

(** ** Counting statements *)

Definition is_Assign (e : ast.Expr) : bool :=
  match e with ast.Assign _ _ => true | _ => false end.

Definition is_Equal (e : ast.Expr) : bool :=
  match e with ast.Equal _ _ => true | _ => false end.

Definition is_SomeDecl (e : ast.Expr) : bool :=
  match e with ast.SomeDecl _ => true | _ => false end.

Definition count_expr (p : ast.Expr -> bool) (b : ast.Body) : nat :=
  List.length (filter p b).

(** The key whose builder binds a name ([""] for any other name). *)
Definition keyOf (x : string) : string :=
  if String.eqb x "allowed_fingerprints" then "fingerprint"
  else if String.eqb x "allowed_spki_hashes" then "spki_hash"
  else if String.eqb x "allowed_san_emails" then "email"
  else if String.eqb x "allowed_san_dns_names" then "dns"
  else if String.eqb x "allowed_san_ip_addresses" then "ip"
  else if String.eqb x "allowed_san_uris" then "uri"
  else if String.eqb x "san_uri_index" then "uri"
  else "".

(** Two environments that give the fact names the same values. *)
Definition same_facts (env env' : Env) : Prop :=
  forall x, In x factNames -> lookup env x = lookup env' x.

(** ** Sample library and inputs *)

Definition is_ctl (c : ascii) : bool :=
  (N_of_ascii c <? 32)%N || (N_of_ascii c =? 127)%N.

(** The first test of [url.Parse], which leaves out every text with an
    ASCII control byte; the later tests are not modelled, so this sample
    accepts more than the library does. *)
Definition sample_url_Parse (s : string) : bool :=
  negb (existsb is_ctl (chars s)).

(** Samples that accept nothing: no run below holds an e-mail address or
    an IP address. *)
Definition sample_mail_ParseAddress (s : string) : bool := false.
Definition sample_net_ParseIP (s : string) : bool := false.

(** A [%v] that shows a string as it is and a sequence or an object
    between brackets. *)
Fixpoint sample_fmt_v (v : parser.Value) : string :=
  match v with
  | parser.String s => s
  | parser.Array elems =>
      ("[" ++ String.concat " " (map sample_fmt_v elems) ++ "]")%string
  | parser.Object entries =>
      ("map[" ++ String.concat " "
         (map (fun kv => match kv with
                         | (k, v') => (k ++ ":" ++ sample_fmt_v v')%string
                         end) entries) ++ "]")%string
  end.

Definition sample_short : string :=
  "e3b0c44298fc1c149afbf4c8996fb92427ae41e4649b934ca495991b7852b855".

Definition sample_long : string :=
  "E3:B0:C4:42:98:FC:1C:14:9A:FB:F4:C8:99:6F:B9:24:27:AE:41:E4:64:9B:93:4C:A4:95:99:1B:78:52:B8:55".

(** One object, its two keys visited in either order. *)
Definition sample_fingerprint_dns : list (string * parser.Value) :=
  [("fingerprint", parser.String sample_short); ("dns", parser.String "a.example.com")].

Definition sample_dns_fingerprint : list (string * parser.Value) :=
  [("dns", parser.String "a.example.com"); ("fingerprint", parser.String sample_short)].

(** An object whose first entry fails to build and whose second key is
    not a condition. *)
Definition sample_empty_then_bogus : list (string * parser.Value) :=
  [("fingerprint", parser.String ""); ("bogus_key", parser.String "x")].

Definition sample_uri : string := "spiffe://cluster/ns/default/sa/foo".

(** A certificate whose one SAN URI is
    [spiffe://cluster/ns/default/sa/foo?x=1#frag]. *)
Definition sample_facts : Facts :=
  {| fingerprint := sample_short;
     spki_hash := "47DEQpj8HBSa+/TImW+5JCeuQeRkm5NMpJWZG3hSuFU=";
     san_email_addresses := [];
     san_dns_names := ["a.example.com"];
     san_ip_addresses := [];
     san_uris := [ {| Scheme := "spiffe"; Host := "cluster";
                      Path := "/ns/default/sa/foo";
                      RawQuery := "x=1"; Fragment := "frag" |} ] |}.

(** Base64 texts of 31, 32 and 33 zero bytes. *)
Definition sample_base64_31 : string := "AAAAAAAAAAAAAAAAAAAAAAAAAAAAAAAAAAAAAAAAAA==".
Definition sample_base64_32 : string := "AAAAAAAAAAAAAAAAAAAAAAAAAAAAAAAAAAAAAAAAAAA=".
Definition sample_base64_33 : string := "AAAAAAAAAAAAAAAAAAAAAAAAAAAAAAAAAAAAAAAAAAAA".

(** ** The condition builders *)

(** The loop [ra := ast.NewArray(); for _, v := range pa { ... ra = ra.Append(t) }]
    shared by the six builders: [step] is the loop body, which either
    returns an error (and so does the builder) or gives the term to
    append. *)
Fixpoint range_append (step : parser.Value -> result ast.Term)
    (pa : list parser.Value) : result (list ast.Term) :=
  match pa with
  | [] => Ok []
  | v :: rest =>
      t <- step v ;;
      ra <- range_append step rest ;;
      Ok (t :: ra)
  end.

Section Criteria.

(** The Go library calls the builders make and whose code is outside the
    repository: [true] when [mail.ParseAddress] and [url.Parse] return a
    [nil] error and when [net.ParseIP] returns a non-[nil] address. *)
Variable mail_ParseAddress : string -> bool.
Variable net_ParseIP : string -> bool.
Variable url_Parse : string -> bool.

(** [%v] of a configuration value. *)
Variable fmt_v : parser.Value -> string.

Definition canonicalCertFingerprint (data : parser.Value) : result ast.Term :=
  match data with
  | parser.String f =>
      if String.eqb f ""
      then Err "certificate fingerprint must not be empty"
      else if MatchString shortCertFingerprintRE f
      then Ok (ast.String f)
      else if MatchString longCertFingerprintRE f
      then Ok (ast.String (strings_ToLower (strings_ReplaceAll f ":" "")))
      else Err ("unsupported certificate fingerprint format (" ++ f ++ ")")%string
  | _ => Err ("certificate fingerprint must be a string (was " ++ fmt_v data ++ ")")%string
  end.

Definition addCertFingerprintCondition (body : ast.Body) (data : parser.Value)
  : result ast.Body :=
  pa <- match data with
        | parser.Array v => Ok v
        | parser.String _ => Ok [data]
        | _ => Err "certificate fingerprint condition expects a string or array of strings"
        end ;;
  ra <- range_append canonicalCertFingerprint pa ;;
  Ok (body ++
      [ ast.Assign (ast.VarTerm "allowed_fingerprints") (ast.ArrayTerm ra);
        ast.Equal (ast.VarTerm "fingerprint") (ast.VarTerm "allowed_fingerprints[_]") ]).

(** Loop body of [addCertSPKIHashCondition]. *)
Definition spkiHashElement (v : parser.Value) : result ast.Term :=
  match v with
  | parser.String h =>
      if String.eqb h ""
      then Err "certificate SPKI hash must not be empty"
      else match base64_DecodeString h with
           | Some b =>
               if negb (Nat.eqb (List.length b) 32)
               then Err ("certificate SPKI hash must be a base64-encoded SHA-256 hash "
                         ++ "(was " ++ h ++ ")")%string
               else Ok (ast.String h)
           | None =>
               Err ("certificate SPKI hash must be a base64-encoded SHA-256 hash "
                    ++ "(was " ++ h ++ ")")%string
           end
  | _ => Err ("certificate SPKI hash must be a string (was " ++ fmt_v v ++ ")")%string
  end.

Definition addCertSPKIHashCondition (body : ast.Body) (data : parser.Value)
  : result ast.Body :=
  pa <- match data with
        | parser.Array v => Ok v
        | parser.String _ => Ok [data]
        | _ => Err "certificate SPKI hash condition expects a string or array of strings"
        end ;;
  ra <- range_append spkiHashElement pa ;;
  Ok (body ++
      [ ast.Assign (ast.VarTerm "allowed_spki_hashes") (ast.ArrayTerm ra);
        ast.Equal (ast.VarTerm "spki_hash") (ast.VarTerm "allowed_spki_hashes[_]") ]).

(** Loop body of [addSanEmailCondition]. *)
Definition sanEmailElement (v : parser.Value) : result ast.Term :=
  match v with
  | parser.String emailStr =>
      if negb (mail_ParseAddress emailStr)
      then Err ("certificate SAN email must be a valid email address (was "
                ++ emailStr ++ ")")%string
      else Ok (ast.String emailStr)
  | _ => Err ("certificate SAN email must be a string (was " ++ fmt_v v ++ ")")%string
  end.

Definition addSanEmailCondition (body : ast.Body) (data : parser.Value)
  : result ast.Body :=
  pa <- match data with
        | parser.Array v => Ok v
        | parser.String _ => Ok [data]
        | _ => Err "certificate SAN email condition expects a string or array of strings"
        end ;;
  ra <- range_append sanEmailElement pa ;;
  Ok (body ++
      [ ast.Assign (ast.VarTerm "allowed_san_emails") (ast.ArrayTerm ra);
        ast.Equal (ast.VarTerm "allowed_san_emails[_]")
                  (ast.VarTerm "san_email_addresses[_]") ]).

(** Loop body of [addSanDNSCondition]. *)
Definition sanDNSElement (v : parser.Value) : result ast.Term :=
  match v with
  | parser.String dnsStr =>
      if negb (MatchString rxDNSName dnsStr)
      then Err ("certificate SAN dns must be a valid DNS name (was " ++ dnsStr ++ ")")%string
      else Ok (ast.String dnsStr)
  | _ => Err ("certificate SAN dns must be a string (was " ++ fmt_v v ++ ")")%string
  end.

Definition addSanDNSCondition (body : ast.Body) (data : parser.Value)
  : result ast.Body :=
  pa <- match data with
        | parser.Array v => Ok v
        | parser.String _ => Ok [data]
        | _ => Err "certificate SAN dns condition expects a string or array of strings"
        end ;;
  ra <- range_append sanDNSElement pa ;;
  Ok (body ++
      [ ast.Assign (ast.VarTerm "allowed_san_dns_names") (ast.ArrayTerm ra);
        ast.Equal (ast.VarTerm "allowed_san_dns_names[_]")
                  (ast.VarTerm "san_dns_names[_]") ]).

(** Loop body of [addSanIPCondition]. *)
Definition sanIPElement (v : parser.Value) : result ast.Term :=
  match v with
  | parser.String ipStr =>
      if negb (net_ParseIP ipStr)
      then Err ("certificate SAN IP must be a valid IP address (was " ++ ipStr ++ ")")%string
      else Ok (ast.String ipStr)
  | _ => Err ("certificate SAN IP must be a string (was " ++ fmt_v v ++ ")")%string
  end.

Definition addSanIPCondition (body : ast.Body) (data : parser.Value)
  : result ast.Body :=
  pa <- match data with
        | parser.Array v => Ok v
        | parser.String _ => Ok [data]
        | _ => Err "certificate SAN IP condition expects a string or array of strings"
        end ;;
  ra <- range_append sanIPElement pa ;;
  Ok (body ++
      [ ast.Assign (ast.VarTerm "allowed_san_ip_addresses") (ast.ArrayTerm ra);
        ast.Equal (ast.VarTerm "allowed_san_ip_addresses[_]")
                  (ast.VarTerm "san_ip_addresses[_]") ]).

(** Loop body of [addSanURICondition]. *)
Definition sanURIElement (v : parser.Value) : result ast.Term :=
  match v with
  | parser.String urlStr =>
      if negb (url_Parse urlStr)
      then Err ("certificate SAN URI must be a valid URI (was " ++ urlStr ++ ")")%string
      else Ok (ast.String urlStr)
  | _ => Err ("certificate URI must be a string (was " ++ fmt_v v ++ ")")%string
  end.

Definition addSanURICondition (body : ast.Body) (data : parser.Value)
  : result ast.Body :=
  pa <- match data with
        | parser.Array v => Ok v
        | parser.String _ => Ok [data]
        | _ => Err "certificate SAN URI condition expects a string or array of strings"
        end ;;
  ra <- range_append sanURIElement pa ;;
  let body1 := body ++ [ast.Assign (ast.VarTerm "allowed_san_uris") (ast.ArrayTerm ra)] in
  Ok (fold_left (fun b expr => b ++ [expr]) uriCheckBody body1).

(** ** The criterion *)

Definition Name : string := "client_certificate".

(** The [switch k] of [GenerateRule]'s loop. *)
Definition addCondition (k : string) (body : ast.Body) (v : parser.Value)
  : result ast.Body :=
  if String.eqb k "fingerprint" then addCertFingerprintCondition body v
  else if String.eqb k "spki_hash" then addCertSPKIHashCondition body v
  else if String.eqb k "email" then addSanEmailCondition body v
  else if String.eqb k "dns" then addSanDNSCondition body v
  else if String.eqb k "ip" then addSanIPCondition body v
  else if String.eqb k "uri" then addSanURICondition body v
  else Err ("unsupported certificate matcher condition: " ++ k)%string.

(** [for k, v := range obj { ... }], the entries in the order visited. *)
Fixpoint rangeObject (body : ast.Body) (obj : list (string * parser.Value))
  : result ast.Body :=
  match obj with
  | [] => Ok body
  | (k, v) :: rest =>
      body' <- addCondition k body v ;;
      rangeObject body' rest
  end.

Definition GenerateRule (data : parser.Value) : result (Rule * list Rule) :=
  let body := [] ++ clientCertificateBaseBody in
  match data with
  | parser.Object obj =>
      body' <- rangeObject body obj ;;
      Ok (NewCriterionRule Name
            ReasonClientCertificateOK ReasonClientCertificateUnauthorized body',
          [])
  | _ => Err ("expected object for certificate matcher, got: " ++ fmt_T data)%string
  end.

(** ** Vocabulary of the properties *)

(** The keys [GenerateRule] dispatches on. *)
Definition conditionKeys : list string :=
  ["fingerprint"; "spki_hash"; "email"; "dns"; "ip"; "uri"].

(** The loop body of the builder a key is dispatched to. *)
Definition stepOf (k : string) : parser.Value -> result ast.Term :=
  if String.eqb k "fingerprint" then canonicalCertFingerprint
  else if String.eqb k "spki_hash" then spkiHashElement
  else if String.eqb k "email" then sanEmailElement
  else if String.eqb k "dns" then sanDNSElement
  else if String.eqb k "ip" then sanIPElement
  else sanURIElement.

(** The words by which the messages of a builder name its condition. *)
Definition conditionLabel (k : string) : string :=
  if String.eqb k "fingerprint" then "fingerprint"
  else if String.eqb k "spki_hash" then "SPKI hash"
  else if String.eqb k "email" then "SAN email"
  else if String.eqb k "dns" then "SAN dns"
  else if String.eqb k "ip" then "SAN IP"
  else "URI".

(** The raw value as a message shows it: a string as it is ([%s]), any
    other value through [%v]. *)
Definition rawText (v : parser.Value) : string :=
  match v with
  | parser.String s => s
  | _ => fmt_v v
  end.

(** The type switch at the head of every builder: a sequence is taken as
    it is, a bare string as the sequence of that one string, and any other
    value is refused with the builder's message. *)
Definition coerce (msg : string) (data : parser.Value) : result (list parser.Value) :=
  match data with
  | parser.Array v => Ok v
  | parser.String _ => Ok [data]
  | _ => Err msg
  end.

Definition expectsMessage (k : string) : string :=
  if String.eqb k "fingerprint"
  then "certificate fingerprint condition expects a string or array of strings"
  else if String.eqb k "spki_hash"
  then "certificate SPKI hash condition expects a string or array of strings"
  else if String.eqb k "email"
  then "certificate SAN email condition expects a string or array of strings"
  else if String.eqb k "dns"
  then "certificate SAN dns condition expects a string or array of strings"
  else if String.eqb k "ip"
  then "certificate SAN IP condition expects a string or array of strings"
  else "certificate SAN URI condition expects a string or array of strings".

(** The allow-list variable of a key's builder. *)
Definition allowVar (k : string) : string :=
  if String.eqb k "fingerprint" then "allowed_fingerprints"
  else if String.eqb k "spki_hash" then "allowed_spki_hashes"
  else if String.eqb k "email" then "allowed_san_emails"
  else if String.eqb k "dns" then "allowed_san_dns_names"
  else if String.eqb k "ip" then "allowed_san_ip_addresses"
  else "allowed_san_uris".

(** The statements a key's builder appends after the assignment. *)
Definition constraintOf (k : string) : ast.Body :=
  if String.eqb k "fingerprint"
  then [ast.Equal (ast.VarTerm "fingerprint") (ast.VarTerm "allowed_fingerprints[_]")]
  else if String.eqb k "spki_hash"
  then [ast.Equal (ast.VarTerm "spki_hash") (ast.VarTerm "allowed_spki_hashes[_]")]
  else if String.eqb k "email"
  then [ast.Equal (ast.VarTerm "allowed_san_emails[_]")
                  (ast.VarTerm "san_email_addresses[_]")]
  else if String.eqb k "dns"
  then [ast.Equal (ast.VarTerm "allowed_san_dns_names[_]")
                  (ast.VarTerm "san_dns_names[_]")]
  else if String.eqb k "ip"
  then [ast.Equal (ast.VarTerm "allowed_san_ip_addresses[_]")
                  (ast.VarTerm "san_ip_addresses[_]")]
  else uriCheckBody.

(** The statements a key's builder appends for the allow-list [ra]. *)
Definition emit (k : string) (ra : list ast.Term) : ast.Body :=
  ast.Assign (ast.VarTerm (allowVar k)) (ast.ArrayTerm ra) :: constraintOf k.

(** What a builder appends to an empty body. *)
Definition fragment (k : string) (v : parser.Value) : result ast.Body :=
  addCondition k [] v.

(** The statements an entry contributes ([[]] when its builder fails). *)
Definition block (kv : string * parser.Value) : ast.Body :=
  match fragment (fst kv) (snd kv) with
  | Ok f => f
  | Err _ => []
  end.

(** A loop body that keeps the strings its test accepts, as they are. *)
Definition keeps_accepted (step : parser.Value -> result ast.Term)
    (accept : string -> bool) : Prop :=
  forall v t, step v = Ok t <->
              exists s, v = parser.String s /\ accept s = true /\ t = ast.StringTerm s.

(** * Properties *)

(** ** The matcher decides the language of a pattern *)

Lemma Matches_Eps_inv (s : list ascii) : Matches Eps s -> s = [].
Proof. intros H; inversion H; reflexivity. Qed.

Lemma Matches_Class_inv (cs : cclass) (s : list ascii) :
  Matches (Class cs) s -> exists c, s = [c] /\ in_class cs c = true.
Proof. intros H; inversion H; subst; eauto. Qed.

Lemma Matches_Cat_inv (r1 r2 : regex) (s : list ascii) :
  Matches (Cat r1 r2) s ->
  exists s1 s2, s = s1 ++ s2 /\ Matches r1 s1 /\ Matches r2 s2.
Proof. intros H; inversion H; subst; eauto. Qed.

Lemma Matches_Alt_inv (r1 r2 : regex) (s : list ascii) :
  Matches (Alt r1 r2) s -> Matches r1 s \/ Matches r2 s.
Proof. intros H; inversion H; subst; auto. Qed.

Lemma Matches_Star_cons (r : regex) (c : ascii) (s : list ascii) :
  Matches (Star r) (c :: s) ->
  exists s1 s2, s = s1 ++ s2 /\ Matches r (c :: s1) /\ Matches (Star r) s2.
Proof.
  intros H.
  remember (Star r) as r0 eqn:Er.
  remember (c :: s) as w eqn:Ew.
  revert c s Ew.
  induction H as [ | | | | | | r' s1 s2 H1 _ H2 IH2 ]; intros c0 s0 Ew;
    try discriminate.
  injection Er as ->.
  destruct s1 as [ | a s1'].
  - simpl in Ew. apply IH2; auto.
  - simpl in Ew. injection Ew as -> <-. exists s1', s2. auto.
Qed.

Lemma nullable_Matches (r : regex) : nullable r = true <-> Matches r [].
Proof.
  induction r as [ | | cs | r1 IH1 r2 IH2 | r1 IH1 r2 IH2 | r1 IH1 ]; simpl.
  - split; [discriminate | intros H; inversion H].
  - split; [constructor | reflexivity].
  - split; [discriminate | intros H; inversion H].
  - rewrite andb_true_iff, IH1, IH2. split.
    + intros [H1 H2]. exact (MCat H1 H2).
    + intros H. apply Matches_Cat_inv in H as (s1 & s2 & E & H1 & H2).
      symmetry in E. apply app_eq_nil in E as [-> ->]. auto.
  - rewrite orb_true_iff, IH1, IH2. split.
    + intros [H | H]; [apply MAltL | apply MAltR]; exact H.
    + apply Matches_Alt_inv.
  - split; [constructor | reflexivity].
Qed.

Lemma deriv_sound (c : ascii) (r : regex) :
  forall s, Matches (deriv c r) s -> Matches r (c :: s).
Proof.
  induction r as [ | | cs | r1 IH1 r2 IH2 | r1 IH1 r2 IH2 | r1 IH1 ]; simpl; intros s H.
  - inversion H.
  - inversion H.
  - destruct (in_class cs c) eqn:E; [ | inversion H].
    apply Matches_Eps_inv in H as ->. constructor; exact E.
  - destruct (nullable r1) eqn:E.
    + apply Matches_Alt_inv in H as [H | H].
      * apply Matches_Cat_inv in H as (s1 & s2 & -> & H1 & H2).
        exact (MCat (IH1 _ H1) H2).
      * apply nullable_Matches in E. exact (MCat E (IH2 _ H)).
    + apply Matches_Cat_inv in H as (s1 & s2 & -> & H1 & H2).
      exact (MCat (IH1 _ H1) H2).
  - apply Matches_Alt_inv in H as [H | H]; [apply MAltL | apply MAltR]; auto.
  - apply Matches_Cat_inv in H as (s1 & s2 & -> & H1 & H2).
    exact (MStarS (IH1 _ H1) H2).
Qed.

Lemma deriv_complete (c : ascii) (r : regex) :
  forall s, Matches r (c :: s) -> Matches (deriv c r) s.
Proof.
  induction r as [ | | cs | r1 IH1 r2 IH2 | r1 IH1 r2 IH2 | r1 IH1 ]; simpl; intros s H.
  - inversion H.
  - inversion H.
  - apply Matches_Class_inv in H as (c' & E & Hc). injection E as <- ->.
    rewrite Hc. constructor.
  - apply Matches_Cat_inv in H as (s1 & s2 & E & H1 & H2).
    destruct s1 as [ | a s1'].
    + simpl in E. subst s2.
      assert (N : nullable r1 = true) by (apply nullable_Matches; exact H1).
      rewrite N. apply MAltR. auto.
    + simpl in E. injection E as <- ->.
      assert (L : Matches (Cat (deriv c r1) r2) (s1' ++ s2)) by (constructor; auto).
      destruct (nullable r1); [apply MAltL | ]; exact L.
  - apply Matches_Alt_inv in H as [H | H]; [apply MAltL | apply MAltR]; auto.
  - apply Matches_Star_cons in H as (s1 & s2 & -> & H1 & H2).
    constructor; auto.
Qed.

Lemma rmatch_Matches (s : list ascii) :
  forall r, rmatch r s = true <-> Matches r s.
Proof.
  induction s as [ | c s IH]; intros r; simpl.
  - apply nullable_Matches.
  - rewrite IH. split; [apply deriv_sound | apply deriv_complete].
Qed.

(** [c{n}] is the texts of [n] bytes of the class. *)
Lemma Matches_Rep_Class (cs : cclass) (n : nat) :
  forall s, Matches (Rep n (Class cs)) s <->
            List.length s = n /\ Forall (fun c => in_class cs c = true) s.
Proof.
  induction n as [ | n IH]; intros s; simpl.
  - split.
    + intros H. apply Matches_Eps_inv in H as ->. auto.
    + intros [H _]. apply length_zero_iff_nil in H as ->. constructor.
  - split.
    + intros H. apply Matches_Cat_inv in H as (s1 & s2 & -> & H1 & H2).
      apply Matches_Class_inv in H1 as (c & -> & Hc).
      apply IH in H2 as [L F]. simpl. split; [congruence | constructor; auto].
    + intros [L F]. destruct s as [ | c s]; [discriminate | ].
      inversion F; subst. injection L as L.
      change (c :: s) with ([c] ++ s). constructor.
      * constructor; auto.
      * apply IH; auto.
Qed.

(** [(:[0-9A-F]{2}){n}] is the texts of [n] colon groups. *)
Lemma Matches_Rep_group (n : nat) :
  forall s, Matches (Rep n (Cat (Class colon) (Rep 2 (Class hex_upper)))) s <->
            exists gs, List.length gs = n /\ Forall upper_pair gs /\
                       s = flat_map colon_group gs.
Proof.
  induction n as [ | n IH]; intros s; simpl Rep.
  - split.
    + intros H. apply Matches_Eps_inv in H as ->. exists []. auto.
    + intros (gs & L & _ & ->). apply length_zero_iff_nil in L as ->. constructor.
  - split.
    + intros H. apply Matches_Cat_inv in H as (s1 & s2 & -> & H1 & H2).
      apply Matches_Cat_inv in H1 as (s3 & s4 & -> & H3 & H4).
      apply Matches_Class_inv in H3 as (c & -> & Hc).
      apply (Matches_Rep_Class hex_upper 2) in H4 as [L F].
      destruct s4 as [ | a [ | b [ | ? ?]]]; try discriminate.
      inversion F as [ | ? ? Ha F']; subst. inversion F' as [ | ? ? Hb _]; subst.
      apply IH in H2 as (gs & Lg & Fg & ->).
      assert (c = ":"%char) as ->.
      { unfold in_class, colon, byte_le in Hc. simpl in Hc.
        rewrite orb_false_r in Hc. apply andb_true_iff in Hc as [A B].
        apply N.leb_le in A, B.
        rewrite <- (ascii_N_embedding c).
        replace (N_of_ascii c) with 58%N by lia. reflexivity. }
      exists ((a, b) :: gs). simpl. repeat split; auto.
      constructor; [split; assumption | assumption].
    + intros (gs & L & F & ->).
      destruct gs as [ | [a b] gs]; [discriminate | ].
      injection L as L. inversion F as [ | ? ? [Ha Hb] F']; subst. simpl in Ha, Hb.
      change (flat_map colon_group ((a, b) :: gs))
        with (([":"%char] ++ [a; b]) ++ flat_map colon_group gs).
      constructor.
      * constructor; [constructor; reflexivity | ].
        apply (Matches_Rep_Class hex_upper 2). split; [reflexivity | ].
        repeat constructor; assumption.
      * apply IH. eauto.
Qed.

Lemma short_form_spec (s : string) :
  MatchString shortCertFingerprintRE s = true <-> short_form s.
Proof.
  unfold MatchString, shortCertFingerprintRE, short_form.
  rewrite rmatch_Matches. apply Matches_Rep_Class.
Qed.

Lemma long_form_spec (s : string) :
  MatchString longCertFingerprintRE s = true <-> long_form s.
Proof.
  unfold MatchString, longCertFingerprintRE, long_form.
  rewrite rmatch_Matches. split.
  - intros H. apply Matches_Cat_inv in H as (s1 & s2 & E & H1 & H2).
    apply (Matches_Rep_Class hex_upper 2) in H1 as [L F].
    destruct s1 as [ | a [ | b [ | ? ?]]]; try discriminate.
    inversion F as [ | ? ? Ha F']; subst. inversion F' as [ | ? ? Hb _]; subst.
    apply Matches_Rep_group in H2 as (gs & Lg & Fg & ->).
    exists (a, b), gs. repeat split; auto.
    constructor; [split; assumption | assumption].
  - intros ([a b] & gs & L & F & E). rewrite E.
    inversion F as [ | ? ? [Ha Hb] F']; subst. simpl in Ha, Hb. simpl fst. simpl snd.
    change (a :: b :: flat_map colon_group gs) with ([a; b] ++ flat_map colon_group gs).
    constructor.
    + apply (Matches_Rep_Class hex_upper 2). split; [reflexivity | ].
      repeat constructor; assumption.
    + apply Matches_Rep_group. eauto.
Qed.

(** ** Fingerprints *)

Lemma chars_append (a b : string) : chars (a ++ b)%string = chars a ++ chars b.
Proof. induction a as [ | c a IH]; simpl; [ | rewrite IH]; reflexivity. Qed.

Lemma chars_inj (a b : string) : chars a = chars b -> a = b.
Proof.
  intros H. unfold chars in H.
  rewrite <- (string_of_list_ascii_of_string a), <- (string_of_list_ascii_of_string b).
  congruence.
Qed.

Lemma hex_upper_lower (c : ascii) :
  in_class hex_upper c = true ->
  in_class hex_lower (lower_byte c) = true /\ Ascii.eqb c ":" = false.
Proof.
  destruct c as [[] [] [] [] [] [] [] []]; vm_compute; intros H;
    first [discriminate H | split; reflexivity].
Qed.

(** The code's [ToLower(ReplaceAll(f, ":", ""))] removes the colons and
    lowers the rest. *)
Lemma ToLower_ReplaceAll (s : string) :
  strings_ToLower (strings_ReplaceAll s ":" "") = lower_no_colon s.
Proof.
  unfold lower_no_colon, chars.
  induction s as [ | c s IH]; simpl; [reflexivity | ].
  destruct (Ascii.eqb c ":"); simpl; rewrite IH; reflexivity.
Qed.

Lemma chars_lower_no_colon (s : string) :
  chars (lower_no_colon s)
  = map lower_byte (filter (fun c => negb (Ascii.eqb c ":")) (chars s)).
Proof. unfold lower_no_colon, chars. apply list_ascii_of_string_of_list_ascii. Qed.

Lemma lower_groups (gs : list (ascii * ascii)) :
  Forall upper_pair gs ->
  let out := map lower_byte
               (filter (fun c => negb (Ascii.eqb c ":")) (flat_map colon_group gs)) in
  List.length out = 2 * List.length gs /\
  Forall (fun c => in_class hex_lower c = true) out.
Proof.
  induction 1 as [ | [a b] gs [Ha Hb] _ IH]; simpl; [auto | ].
  simpl in Ha, Hb.
  destruct (hex_upper_lower _ Ha) as [La Ca], (hex_upper_lower _ Hb) as [Lb Cb].
  rewrite Ca, Cb. simpl. destruct IH as [L F]. split.
  - rewrite L. lia.
  - repeat constructor; assumption.
Qed.

Lemma long_form_lower (s : string) : long_form s -> short_form (lower_no_colon s).
Proof.
  intros ([a b] & gs & L & F & E). unfold short_form.
  rewrite chars_lower_no_colon, E.
  inversion F as [ | ? ? [Ha Hb] F']; subst. simpl in Ha, Hb. simpl fst. simpl snd.
  destruct (hex_upper_lower _ Ha) as [La Ca], (hex_upper_lower _ Hb) as [Lb Cb].
  simpl. rewrite Ca, Cb. simpl.
  destruct (lower_groups F') as [Lg Fg]. split.
  - rewrite Lg, L. reflexivity.
  - repeat constructor; assumption.
Qed.

Lemma short_form_nonempty (s : string) : short_form s -> String.eqb s "" = false.
Proof. intros [L _]. destruct s; [discriminate L | reflexivity]. Qed.

Lemma long_form_nonempty (s : string) : long_form s -> String.eqb s "" = false.
Proof. intros (g & gs & _ & _ & E). destruct s; [discriminate E | reflexivity]. Qed.

Lemma canonical_short (s : string) :
  short_form s -> canonicalCertFingerprint (parser.String s) = Ok (ast.StringTerm s).
Proof.
  intros H. unfold canonicalCertFingerprint.
  rewrite (short_form_nonempty H).
  apply short_form_spec in H. rewrite H. reflexivity.
Qed.

Lemma canonical_long (s : string) :
  long_form s ->
  canonicalCertFingerprint (parser.String s) = Ok (ast.StringTerm (lower_no_colon s)).
Proof.
  intros H. unfold canonicalCertFingerprint.
  rewrite (long_form_nonempty H).
  destruct (MatchString shortCertFingerprintRE s) eqn:S.
  - exfalso. apply short_form_spec in S as [L _].
    destruct H as (g & gs & Lg & _ & E). rewrite E in L. simpl in L.
    injection L as L.
    assert (X : forall l : list (ascii * ascii),
               List.length (flat_map colon_group l) = 3 * List.length l).
    { induction l as [ | ? ? IH]; simpl; [reflexivity | rewrite IH; lia]. }
    rewrite X, Lg in L. discriminate L.
  - apply long_form_spec in H. rewrite H, ToLower_ReplaceAll. reflexivity.
Qed.

Lemma canonical_inv (s : string) (t : ast.Term) :
  canonicalCertFingerprint (parser.String s) = Ok t ->
  (short_form s /\ t = ast.StringTerm s) \/
  (long_form s /\ t = ast.StringTerm (lower_no_colon s)).
Proof.
  unfold canonicalCertFingerprint.
  destruct (String.eqb s ""); [discriminate | ].
  destruct (MatchString shortCertFingerprintRE s) eqn:S.
  - intros [= <-]. left. split; [apply short_form_spec; exact S | reflexivity].
  - destruct (MatchString longCertFingerprintRE s) eqn:L; [ | discriminate].
    intros [= <-]. right. rewrite ToLower_ReplaceAll.
    split; [apply long_form_spec; exact L | reflexivity].
Qed.

(** C3: a fingerprint is canonicalised to 64 lowercase hexadecimal digits
    exactly when it is in the short form (kept as it is, so canonicalising
    is idempotent) or in the long form (colons removed and letters lowered,
    the result being what its lowercase form without colons canonicalises
    to); the empty string and every other text give an error. *)
Theorem canonicalCertFingerprint_grammar (s : string) :
  (short_form s ->
     canonicalCertFingerprint (parser.String s) = Ok (ast.StringTerm s))
  /\ (long_form s ->
        short_form (lower_no_colon s) /\
        canonicalCertFingerprint (parser.String s)
          = Ok (ast.StringTerm (lower_no_colon s)) /\
        canonicalCertFingerprint (parser.String (lower_no_colon s))
          = canonicalCertFingerprint (parser.String s))
  /\ ((exists t, canonicalCertFingerprint (parser.String s) = Ok t)
        <-> short_form s \/ long_form s)
  /\ (forall t, canonicalCertFingerprint (parser.String s) = Ok t ->
        exists h, t = ast.StringTerm h /\ short_form h /\
                  canonicalCertFingerprint (parser.String h) = Ok t)
  /\ ((exists msg, canonicalCertFingerprint (parser.String s) = Err msg)
        <-> ((short_form s \/ long_form s) -> False))
  /\ canonicalCertFingerprint (parser.String "")
       = Err "certificate fingerprint must not be empty".
Proof.
  assert (A : forall t, canonicalCertFingerprint (parser.String s) = Ok t ->
                short_form s \/ long_form s).
  { intros t H. apply canonical_inv in H as [[H _] | [H _]]; auto. }
  assert (B : short_form s \/ long_form s ->
              exists t, canonicalCertFingerprint (parser.String s) = Ok t).
  { intros [H | H]; eexists; [apply canonical_short | apply canonical_long]; exact H. }
  refine (conj _ (conj _ (conj (conj _ B) (conj _ (conj (conj _ _) eq_refl))))).
  - apply canonical_short.
  - intros H. split; [apply long_form_lower; assumption | split].
    + apply canonical_long; assumption.
    + rewrite (canonical_long H).
      apply canonical_short, long_form_lower; assumption.
  - intros [t H]. exact (A t H).
  - intros t H. apply canonical_inv in H as [[H ->] | [H ->]]; eexists; split; eauto.
    + split; [exact H | apply canonical_short; exact H].
    + split; [apply long_form_lower; exact H
             | apply canonical_short, long_form_lower; exact H].
  - intros [msg E] H. apply B in H as [t H]. congruence.
  - intros H. destruct (canonicalCertFingerprint (parser.String s)) as [t | msg] eqn:E.
    + exfalso. exact (H (A t eq_refl)).
    + eauto.
Qed.

(** ** The builders, key by key *)

Ltac known_key H :=
  simpl in H;
  destruct H as [<- | [<- | [<- | [<- | [<- | [<- | []]]]]]].

(** Every builder is its type switch, its loop and the statements of its
    key. *)
Lemma addCondition_known (k : string) (body : ast.Body) (v : parser.Value) :
  In k conditionKeys ->
  addCondition k body v =
    (pa <- coerce (expectsMessage k) v ;;
     ra <- range_append (stepOf k) pa ;;
     Ok (body ++ emit k ra)).
Proof.
  intros Hk.
  known_key Hk; unfold addCondition, stepOf, expectsMessage, emit, allowVar, constraintOf;
    simpl; try reflexivity.
  unfold addSanURICondition, coerce, bind.
  destruct v as [s | elems | entries]; try reflexivity.
  - destruct (range_append sanURIElement [parser.String s]); [ | reflexivity].
    simpl. rewrite <- !app_assoc. reflexivity.
  - destruct (range_append sanURIElement elems); [ | reflexivity].
    simpl. rewrite <- !app_assoc. reflexivity.
Qed.

Lemma addCondition_unknown (k : string) (body : ast.Body) (v : parser.Value) :
  mem k conditionKeys = false ->
  addCondition k body v = Err ("unsupported certificate matcher condition: " ++ k)%string.
Proof.
  unfold mem, conditionKeys, addCondition. simpl. intros H.
  repeat (apply orb_false_iff in H as [-> H]). reflexivity.
Qed.

Lemma mem_In (x : string) (xs : list string) : mem x xs = true <-> In x xs.
Proof.
  unfold mem. rewrite existsb_exists. split.
  - intros (y & Hy & E). apply String.eqb_eq in E. subst. exact Hy.
  - intros H. exists x. split; [exact H | apply String.eqb_refl].
Qed.

(** ** The loop over the elements *)

Lemma range_append_Ok (step : parser.Value -> result ast.Term) (pa : list parser.Value) :
  forall ra, range_append step pa = Ok ra <-> Forall2 (fun v t => step v = Ok t) pa ra.
Proof.
  induction pa as [ | v pa IH]; intros ra; simpl.
  - split.
    + intros [= <-]. constructor.
    + intros H. inversion H. reflexivity.
  - destruct (step v) as [t | msg] eqn:E; simpl.
    + destruct (range_append step pa) as [ra' | msg'] eqn:R; simpl.
      * split.
        -- intros [= <-]. constructor; [exact E | apply IH; reflexivity].
        -- intros H. inversion H as [ | ? t' ? ra'' Ht Hr]; subst.
           apply IH in Hr. congruence.
      * split; [discriminate | ].
        intros H. inversion H as [ | ? t' ? ra'' Ht Hr]; subst.
        apply IH in Hr. discriminate Hr.
    + split; [discriminate | ].
      intros H. inversion H; subst. congruence.
Qed.

Lemma range_append_is_ok (step : parser.Value -> result ast.Term) (pa : list parser.Value) :
  is_ok (range_append step pa) = forallb (fun v => is_ok (step v)) pa.
Proof.
  induction pa as [ | v pa IH]; simpl; [reflexivity | ].
  destruct (step v); simpl; [ | reflexivity].
  rewrite <- IH. destruct (range_append step pa); reflexivity.
Qed.

(** The loop stops at the first element its body refuses: the error is
    that element's, whatever follows it. *)
Lemma range_append_first_error (step : parser.Value -> result ast.Term)
    (pre post : list parser.Value) (bad : parser.Value) (msg : string) :
  Forall (fun v => is_ok (step v) = true) pre ->
  step bad = Err msg ->
  range_append step (pre ++ bad :: post) = Err msg.
Proof.
  intros Hpre Hbad. induction Hpre as [ | v pre Hv _ IH]; simpl.
  - rewrite Hbad. reflexivity.
  - destruct (step v); [ | discriminate Hv]. simpl. rewrite IH. reflexivity.
Qed.

(** ** The loop over the keys *)

Lemma addCondition_fragment (k : string) (body : ast.Body) (v : parser.Value) :
  addCondition k body v = (f <- fragment k v ;; Ok (body ++ f)).
Proof.
  unfold fragment. destruct (mem k conditionKeys) eqn:M.
  - apply mem_In in M. rewrite !(fun b => @addCondition_known k b v M).
    destruct (coerce (expectsMessage k) v) as [pa | ]; simpl; [ | reflexivity].
    destruct (range_append (stepOf k) pa); reflexivity.
  - rewrite !(fun b => @addCondition_unknown k b v M). reflexivity.
Qed.

Lemma rangeObject_is_ok (obj : list (string * parser.Value)) :
  forall body,
    is_ok (rangeObject body obj)
    = forallb (fun kv => is_ok (fragment (fst kv) (snd kv))) obj.
Proof.
  induction obj as [ | [k v] obj IH]; intros body; simpl; [reflexivity | ].
  rewrite addCondition_fragment.
  destruct (fragment k v); simpl; [apply IH | reflexivity].
Qed.

Lemma rangeObject_Ok (obj : list (string * parser.Value)) :
  forall body body',
    rangeObject body obj = Ok body' -> body' = body ++ flat_map block obj.
Proof.
  induction obj as [ | [k v] obj IH]; intros body body'; simpl.
  - intros [= <-]. symmetry. apply app_nil_r.
  - rewrite addCondition_fragment. unfold block at 1. simpl.
    destruct (fragment k v) as [f | ]; simpl; [ | discriminate].
    intros H. apply IH in H. rewrite H, app_assoc. reflexivity.
Qed.

(** The loop stops at the first entry whose builder fails. *)
Lemma rangeObject_first_error (before after : list (string * parser.Value))
    (k : string) (v : parser.Value) (msg : string) :
  forall body,
    is_ok (rangeObject body before) = true ->
    (forall b, addCondition k b v = Err msg) ->
    rangeObject body (before ++ (k, v) :: after) = Err msg.
Proof.
  induction before as [ | [k0 v0] before IH]; intros body Hb Hk; simpl.
  - rewrite Hk. reflexivity.
  - simpl in Hb. destruct (addCondition k0 body v0) as [b1 | ]; simpl in *.
    + apply IH; assumption.
    + discriminate Hb.
Qed.

(** An entry whose builder fails makes the loop fail wherever it stands. *)
Lemma rangeObject_some_error (obj : list (string * parser.Value))
    (k : string) (v : parser.Value) (body : ast.Body) :
  In (k, v) obj -> is_ok (fragment k v) = false ->
  is_ok (rangeObject body obj) = false.
Proof.
  intros Hin Hf. rewrite rangeObject_is_ok.
  destruct (forallb _ obj) eqn:F; [ | reflexivity].
  rewrite forallb_forall in F. specialize (F _ Hin). simpl in F. congruence.
Qed.

Lemma forallb_Permutation {A : Type} (f : A -> bool) (l l' : list A) :
  Permutation l l' -> forallb f l = forallb f l'.
Proof.
  induction 1 as [ | x l l' _ IH | x y l | l l' l'' _ IH1 _ IH2]; simpl.
  - reflexivity.
  - rewrite IH. reflexivity.
  - destruct (f x), (f y); reflexivity.
  - congruence.
Qed.

(** ** Messages *)

Lemma Contains_here (s post : string) : Contains (s ++ post) s.
Proof. exists "", post. reflexivity. Qed.

Lemma Contains_cons (c : ascii) (msg s : string) :
  Contains msg s -> Contains (String c msg) s.
Proof. intros (pre & post & ->). exists (String c pre), post. reflexivity. Qed.

Lemma prefix_split (s : string) :
  forall msg, String.prefix s msg = true -> exists post, msg = (s ++ post)%string.
Proof.
  induction s as [ | c s IH]; intros msg H.
  - exists msg. reflexivity.
  - destruct msg as [ | c' msg]; simpl in H; [discriminate | ].
    destruct (ascii_dec c c') as [<- | ]; [ | discriminate].
    apply IH in H as [post ->]. exists post. reflexivity.
Qed.

Lemma Contains_prefix (msg s : string) : String.prefix s msg = true -> Contains msg s.
Proof. intros H. apply prefix_split in H as [post ->]. apply Contains_here. Qed.

Lemma containsb_Contains (msg s : string) : containsb msg s = true <-> Contains msg s.
Proof.
  split.
  - induction msg as [ | c msg IH]; simpl; unfold is_prefix; intros H.
    + rewrite orb_false_r in H. apply Contains_prefix; exact H.
    + apply orb_true_iff in H as [H | H].
      * apply Contains_prefix; exact H.
      * apply Contains_cons, IH, H.
  - intros (pre & post & ->). induction pre as [ | c pre IH].
    + simpl. assert (P : is_prefix s (s ++ post) = true).
      { unfold is_prefix. clear. induction s as [ | c s IH]; simpl.
        - destruct post; reflexivity.
        - destruct (ascii_dec c c); [exact IH | congruence]. }
      assert (U : forall m, is_prefix s m = true -> containsb m s = true).
      { intros m Hm. destruct m; cbn [containsb]; rewrite Hm; reflexivity. }
      apply U, P.
    + cbn [append containsb]. rewrite IH. apply orb_true_r.
Qed.

Lemma append_empty (s : string) : (s ++ "")%string = s.
Proof. induction s as [ | c s IH]; simpl; [ | rewrite IH]; reflexivity. Qed.

Lemma Contains_refl (s : string) : Contains s s.
Proof. exists "", "". simpl. symmetry. apply append_empty. Qed.

Ltac contains_tac :=
  simpl;
  repeat first [ apply Contains_prefix; reflexivity
               | apply Contains_refl
               | apply Contains_here
               | apply Contains_cons ].

(** A message of a loop body shows the value it refuses and names the
    condition. *)
Lemma step_error_message (k : string) (v : parser.Value) (msg : string) :
  In k conditionKeys -> stepOf k v = Err msg ->
  Contains msg (rawText v) /\ Contains msg (conditionLabel k).
Proof.
  intros Hk.
  known_key Hk;
    cbv beta iota delta [stepOf conditionLabel String.eqb Ascii.eqb Bool.eqb];
    unfold canonicalCertFingerprint, spkiHashElement, sanEmailElement,
      sanDNSElement, sanIPElement, sanURIElement;
    destruct v as [s | elems | entries]; unfold rawText;
    repeat match goal with
           | |- context [if ?b then _ else _] => destruct b eqn:?
           | |- context [match ?o with Some _ => _ | None => _ end] => destruct o eqn:?
           end;
    intros E; try discriminate E; injection E as <-;
    try match goal with
        | H : String.eqb ?s "" = true |- _ => apply String.eqb_eq in H; subst s
        end;
    split; contains_tac.
Qed.

(** ** Compiling a criterion *)

Lemma GenerateRule_Object (obj : list (string * parser.Value)) :
  GenerateRule (parser.Object obj) =
    (body' <- rangeObject clientCertificateBaseBody obj ;;
     Ok (NewCriterionRule Name ReasonClientCertificateOK
           ReasonClientCertificateUnauthorized body', [])).
Proof. reflexivity. Qed.

Lemma GenerateRule_is_ok (obj : list (string * parser.Value)) :
  is_ok (GenerateRule (parser.Object obj))
  = forallb (fun kv => is_ok (fragment (fst kv) (snd kv))) obj.
Proof.
  rewrite GenerateRule_Object, <- (rangeObject_is_ok obj clientCertificateBaseBody).
  destruct (rangeObject clientCertificateBaseBody obj); reflexivity.
Qed.

Lemma GenerateRule_Ok (obj : list (string * parser.Value)) (r : Rule) (aux : list Rule) :
  GenerateRule (parser.Object obj) = Ok (r, aux) ->
  aux = [] /\
  r = NewCriterionRule Name ReasonClientCertificateOK ReasonClientCertificateUnauthorized
        (clientCertificateBaseBody ++ flat_map block obj).
Proof.
  rewrite GenerateRule_Object.
  destruct (rangeObject clientCertificateBaseBody obj) as [b | ] eqn:E; simpl;
    [ | discriminate].
  intros [= <- <-]. apply rangeObject_Ok in E. subst b. auto.
Qed.

Lemma not_ok_Err {A : Type} (r : result A) : is_ok r = false -> exists msg, r = Err msg.
Proof. destruct r; [discriminate | eauto]. Qed.

(** C1, as the code has it: compiling is a function of the value and of
    the order in which the keys of the object are visited.  For two orders
    of the same entries both compiles fail or both succeed; when they
    succeed the rules have the same name and reason codes and no auxiliary
    rule, and each body is the prologue followed by the statements of each
    entry in the order visited, so the two bodies hold the same statements,
    arranged by that order. *)
Theorem GenerateRule_order (o1 o2 : list (string * parser.Value)) :
  Permutation o1 o2 ->
  is_ok (GenerateRule (parser.Object o1)) = is_ok (GenerateRule (parser.Object o2))
  /\ forall r1 aux1 r2 aux2,
       GenerateRule (parser.Object o1) = Ok (r1, aux1) ->
       GenerateRule (parser.Object o2) = Ok (r2, aux2) ->
       aux1 = [] /\ aux2 = [] /\
       rule_name r1 = rule_name r2 /\
       rule_ok r1 = rule_ok r2 /\
       rule_fail r1 = rule_fail r2 /\
       rule_body r1 = clientCertificateBaseBody ++ flat_map block o1 /\
       rule_body r2 = clientCertificateBaseBody ++ flat_map block o2 /\
       Permutation (rule_body r1) (rule_body r2).
Proof.
  intros P. split.
  - rewrite !GenerateRule_is_ok. apply forallb_Permutation, P.
  - intros r1 aux1 r2 aux2 H1 H2.
    apply GenerateRule_Ok in H1 as [-> ->], H2 as [-> ->].
    cbn [rule_name rule_ok rule_fail rule_body].
    repeat split.
    apply Permutation_app_head, Permutation_flat_map, P.
Qed.

(** C5: when an element of a sequence is the first the loop body of the
    condition refuses, the builder returns that element's error whatever
    follows it; the message shows the raw value and names the condition;
    compiling an object with this entry returns an error and no rule, and
    returns this very error when the entries visited before build. *)
Theorem first_failing_element (k : string) (pre post : list parser.Value)
    (bad : parser.Value) (body : ast.Body) :
  In k conditionKeys ->
  Forall (fun v => is_ok (stepOf k v) = true) pre ->
  is_ok (stepOf k bad) = false ->
  exists msg,
    stepOf k bad = Err msg
    /\ (forall post', addCondition k body (parser.Array (pre ++ bad :: post')) = Err msg)
    /\ Contains msg (rawText bad)
    /\ Contains msg (conditionLabel k)
    /\ (forall obj, In (k, parser.Array (pre ++ bad :: post)) obj ->
          exists e, GenerateRule (parser.Object obj) = Err e)
    /\ (forall before after,
          is_ok (rangeObject clientCertificateBaseBody before) = true ->
          GenerateRule (parser.Object (before ++ (k, parser.Array (pre ++ bad :: post)) :: after))
          = Err msg).
Proof.
  intros Hk Hpre Hbad.
  destruct (not_ok_Err _ Hbad) as [msg E]. exists msg.
  assert (B : forall b post',
             addCondition k b (parser.Array (pre ++ bad :: post')) = Err msg).
  { intros b post'. rewrite (addCondition_known _ _ Hk). simpl.
    rewrite (@range_append_first_error (stepOf k) pre post' bad msg Hpre E).
    reflexivity. }
  destruct (step_error_message _ Hk E) as [C1 C2].
  repeat split; auto.
  - intros obj Hin. apply not_ok_Err.
    rewrite GenerateRule_is_ok.
    destruct (forallb _ obj) eqn:F; [ | reflexivity].
    rewrite forallb_forall in F. specialize (F _ Hin). simpl in F.
    unfold fragment in F. rewrite B in F. discriminate F.
  - intros before after Hb. rewrite GenerateRule_Object.
    rewrite (@rangeObject_first_error before after k _ msg); auto.
Qed.

(** C6, as the code has it: an object with a key outside the six never
    compiles to a rule; the error names that key when the entries visited
    before it build, as when it is the only key.  A value that is not an
    object gives an error and no rule. *)
Theorem unsupported_key (obj : list (string * parser.Value)) (k : string)
    (v : parser.Value) :
  In (k, v) obj ->
  mem k conditionKeys = false ->
  (exists msg, GenerateRule (parser.Object obj) = Err msg)
  /\ (forall before after,
        obj = before ++ (k, v) :: after ->
        is_ok (rangeObject clientCertificateBaseBody before) = true ->
        GenerateRule (parser.Object obj)
        = Err ("unsupported certificate matcher condition: " ++ k)%string)
  /\ Contains ("unsupported certificate matcher condition: " ++ k)%string k
  /\ GenerateRule (parser.Object [(k, v)])
     = Err ("unsupported certificate matcher condition: " ++ k)%string
  /\ (forall data, (forall entries, data = parser.Object entries -> False) ->
        GenerateRule data
        = Err ("expected object for certificate matcher, got: " ++ fmt_T data)%string).
Proof.
  intros Hin Hk.
  assert (B : forall b, addCondition k b v
                        = Err ("unsupported certificate matcher condition: " ++ k)%string).
  { intros b. apply addCondition_unknown, Hk. }
  split; [ | split; [ | split; [ | split]]].
  - apply not_ok_Err. rewrite GenerateRule_is_ok.
    destruct (forallb _ obj) eqn:F; [ | reflexivity].
    rewrite forallb_forall in F. specialize (F _ Hin). simpl in F.
    unfold fragment in F. rewrite B in F. discriminate F.
  - intros before after -> Hb. rewrite GenerateRule_Object.
    rewrite (@rangeObject_first_error before after k v _ _ Hb B). reflexivity.
  - contains_tac.
  - rewrite GenerateRule_Object. simpl. rewrite B. reflexivity.
  - intros data Hd. destruct data as [s | elems | entries]; try reflexivity.
    exfalso. exact (Hd entries eq_refl).
Qed.

(** C7: for each of the six conditions a bare string builds what the
    sequence of that one string builds, and a value that is neither a
    string nor a sequence is refused. *)
Theorem bare_string_is_singleton (k : string) (body : ast.Body) (s : string) :
  In k conditionKeys ->
  addCondition k body (parser.String s)
  = addCondition k body (parser.Array [parser.String s])
  /\ forall data,
       (forall s', data = parser.String s' -> False) ->
       (forall elems, data = parser.Array elems -> False) ->
       addCondition k body data = Err (expectsMessage k)
       /\ exists msg, GenerateRule (parser.Object [(k, data)]) = Err msg.
Proof.
  intros Hk. split.
  - rewrite !(addCondition_known _ _ Hk). reflexivity.
  - intros data Hs Ha.
    assert (E : forall b, addCondition k b data = Err (expectsMessage k)).
    { intros b. rewrite (addCondition_known _ _ Hk).
      destruct data as [s' | elems | entries]; try reflexivity.
      - exfalso. exact (Hs s' eq_refl).
      - exfalso. exact (Ha elems eq_refl). }
    split; [apply E | ].
    rewrite GenerateRule_Object. simpl. rewrite E. simpl. eauto.
Qed.

(** ** SPKI hashes *)

Lemma spkiHashElement_Ok (v : parser.Value) (t : ast.Term) :
  spkiHashElement v = Ok t <->
  exists h b, v = parser.String h /\ base64_DecodeString h = Some b /\
              List.length b = 32 /\ t = ast.StringTerm h.
Proof.
  split.
  - destruct v as [h | elems | entries]; simpl; try discriminate.
    destruct (String.eqb h ""); [discriminate | ].
    destruct (base64_DecodeString h) as [b | ] eqn:D; [ | discriminate].
    destruct (Nat.eqb (List.length b) 32) eqn:L; simpl; [ | discriminate].
    intros [= <-]. apply Nat.eqb_eq in L. exists h, b. auto.
  - intros (h & b & -> & D & L & ->). simpl.
    destruct (String.eqb h "") eqn:E.
    + apply String.eqb_eq in E. subst h. vm_compute in D.
      injection D as <-. discriminate L.
    + rewrite D, L. reflexivity.
Qed.

Lemma spki_loop (vs : list parser.Value) :
  forall ra,
    Forall2 (fun v t => spkiHashElement v = Ok t) vs ra <->
    exists hs, vs = map parser.String hs /\ ra = map ast.StringTerm hs /\
               Forall (fun h => exists b, base64_DecodeString h = Some b /\
                                          List.length b = 32) hs.
Proof.
  induction vs as [ | v vs IH]; intros ra; split.
  - intros H. inversion H. exists []. auto.
  - intros (hs & E & -> & _). destruct hs; [constructor | discriminate].
  - intros H. inversion H as [ | ? t ? ra' Hv Hr]; subst.
    apply spkiHashElement_Ok in Hv as (h & b & -> & D & L & ->).
    apply IH in Hr as (hs & -> & -> & F).
    exists (h :: hs). repeat split; auto. constructor; eauto.
  - intros (hs & E & -> & F). destruct hs as [ | h hs]; [discriminate | ].
    injection E as -> ->. inversion F as [ | ? ? (b & D & L) F']; subst.
    constructor.
    + apply spkiHashElement_Ok. exists h, b. auto.
    + apply IH. eauto.
Qed.

(** C4: an element of an [spki_hash] condition is accepted exactly when it
    is a string that decodes, as standard base64, to 32 bytes, and it is
    then put in the allow-list as it is written; the empty string, a
    string that does not decode and a string that decodes to another
    number of bytes give an error. *)
Theorem spki_hash_accepts_32_bytes (v : parser.Value) :
  ((exists t, spkiHashElement v = Ok t) <->
   (exists h b, v = parser.String h /\ base64_DecodeString h = Some b /\
                List.length b = 32))
  /\ (forall t, spkiHashElement v = Ok t ->
        exists h, v = parser.String h /\ t = ast.StringTerm h)
  /\ (forall h, base64_DecodeString h = None ->
        exists msg, spkiHashElement (parser.String h) = Err msg)
  /\ (forall h b, base64_DecodeString h = Some b -> Nat.eqb (List.length b) 32 = false ->
        exists msg, spkiHashElement (parser.String h) = Err msg)
  /\ spkiHashElement (parser.String "") = Err "certificate SPKI hash must not be empty"
  /\ (forall body vs body',
        addCertSPKIHashCondition body (parser.Array vs) = Ok body' <->
        exists hs,
          vs = map parser.String hs /\
          Forall (fun h => exists b, base64_DecodeString h = Some b /\
                                     List.length b = 32) hs /\
          body' = body ++
            [ ast.Assign (ast.VarTerm "allowed_spki_hashes")
                (ast.ArrayTerm (map ast.StringTerm hs));
              ast.Equal (ast.VarTerm "spki_hash")
                (ast.VarTerm "allowed_spki_hashes[_]") ]).
Proof.
  refine (conj (conj _ _) (conj _ (conj _ (conj _ (conj eq_refl _))))).
  - intros [t H]. apply spkiHashElement_Ok in H as (h & b & E & D & L & _). eauto.
  - intros (h & b & E & D & L). exists (ast.StringTerm h).
    apply spkiHashElement_Ok. exists h, b. auto.
  - intros t H. apply spkiHashElement_Ok in H as (h & b & E & _ & _ & ->). eauto.
  - intros h D. simpl. destruct (String.eqb h ""); [eauto | ]. rewrite D. eauto.
  - intros h b D L. simpl. destruct (String.eqb h ""); [eauto | ].
    rewrite D, L. simpl. eauto.
  - intros body vs body'. unfold addCertSPKIHashCondition. simpl. split.
    + destruct (range_append spkiHashElement vs) as [ra | ] eqn:R; simpl;
        [ | discriminate].
      intros [= <-]. apply range_append_Ok, spki_loop in R as (hs & -> & -> & F).
      exists hs. auto.
    + intros (hs & -> & F & ->).
      assert (R : range_append spkiHashElement (map parser.String hs)
                  = Ok (map ast.StringTerm hs)).
      { apply range_append_Ok, spki_loop. exists hs. auto. }
      rewrite R. reflexivity.
Qed.

(** ** Names a body refers to *)

Lemma unboundRefs_app (sb : bool) (b1 b2 : ast.Body) :
  forall bound,
    unboundRefs sb bound (b1 ++ b2)
    = unboundRefs sb bound b1 ++ unboundRefs sb (binders sb b1 ++ bound) b2.
Proof.
  induction b1 as [ | e b1 IH]; intros bound; simpl; [reflexivity | ].
  destruct e as [lhs rhs | lhs rhs | xs]; rewrite IH, <- ?app_assoc; reflexivity.
Qed.

Lemma mem_incl (x : string) (xs ys : list string) :
  incl xs ys -> mem x xs = true -> mem x ys = true.
Proof. intros I H. apply mem_In. apply I. apply mem_In. exact H. Qed.

(** The statements of a key are closed once the fact names are bound; for
    the [uri] key this counts the [some] declaration as a binder. *)
Lemma emit_closed (sb : bool) (k : string) (ra : list ast.Term) (bound : list string) :
  In k conditionKeys ->
  sb = true \/ String.eqb k "uri" = false ->
  incl factNames bound ->
  unboundRefs sb bound (emit k ra) = [].
Proof.
  intros Hk Hsb I.
  assert (F : forall x, mem x factNames = true -> mem x bound = true).
  { intros x Hx. apply (@mem_incl x factNames); assumption. }
  known_key Hk; unfold emit, allowVar, constraintOf.
  1-5: simpl; rewrite F by reflexivity; reflexivity.
  destruct Hsb as [-> | Hsb]; [ | discriminate Hsb].
  simpl. rewrite (F "san_uris" eq_refl). reflexivity.
Qed.

Lemma fragment_Ok (k : string) (v : parser.Value) (f : ast.Body) :
  fragment k v = Ok f ->
  In k conditionKeys /\ exists ra, f = emit k ra.
Proof.
  unfold fragment. destruct (mem k conditionKeys) eqn:M.
  - apply mem_In in M. rewrite (addCondition_known _ _ M).
    destruct (coerce (expectsMessage k) v) as [pa | ]; simpl; [ | discriminate].
    destruct (range_append (stepOf k) pa) as [ra | ]; simpl; [ | discriminate].
    intros [= <-]. eauto.
  - rewrite addCondition_unknown by exact M. discriminate.
Qed.

Lemma blocks_closed (sb : bool) (obj : list (string * parser.Value)) :
  sb = true \/ existsb (fun kv => String.eqb (fst kv) "uri") obj = false ->
  forall bound, incl factNames bound ->
    unboundRefs sb bound (flat_map block obj) = [].
Proof.
  induction obj as [ | [k v] obj IH]; intros Hsb bound I; simpl; [reflexivity | ].
  rewrite unboundRefs_app.
  assert (Hk : sb = true \/ String.eqb k "uri" = false).
  { destruct Hsb as [-> | H]; [auto | ]. simpl in H.
    apply orb_false_iff in H as [H _]. auto. }
  assert (Ho : sb = true \/ existsb (fun kv => String.eqb (fst kv) "uri") obj = false).
  { destruct Hsb as [-> | H]; [auto | ]. simpl in H.
    apply orb_false_iff in H as [_ H]. auto. }
  rewrite (IH Ho) by (apply incl_appr, I). rewrite app_nil_r.
  unfold block. simpl. destruct (fragment k v) as [f | ] eqn:E; [ | reflexivity].
  apply fragment_Ok in E as (Hin & ra & ->).
  apply emit_closed; assumption.
Qed.

(** C8, as the code has it: in the body of a compiled rule every name a
    constraint refers to is a fact name of the prologue, or is bound by an
    assignment before it, or is declared by a [some] statement before it
    (the index variable of the [uri] condition); without the [uri] key the
    first two suffice. *)
Theorem constraints_refer_to_bound_names (data : parser.Value) (r : Rule)
    (aux : list Rule) :
  GenerateRule data = Ok (r, aux) ->
  unboundRefs true factNames (rule_body r) = []
  /\ incl factNames (binders true clientCertificateBaseBody)
  /\ (forall obj, data = parser.Object obj ->
        existsb (fun kv => String.eqb (fst kv) "uri") obj = false ->
        unboundRefs false factNames (rule_body r) = []).
Proof.
  intros H.
  destruct data as [s | elems | obj]; try discriminate H.
  apply GenerateRule_Ok in H as [-> ->]. cbn [rule_body].
  split; [ | split].
  - rewrite unboundRefs_app.
    rewrite blocks_closed; [reflexivity | auto | apply incl_appr, incl_refl].
  - intros x Hx. simpl in Hx. simpl.
    repeat destruct Hx as [<- | Hx]; auto 10.
  - intros obj' [= <-] Hu. rewrite unboundRefs_app.
    rewrite blocks_closed; [reflexivity | auto | apply incl_appr, incl_refl].
Qed.

(** ** What the statements of a condition assert *)

Lemma products_singletons {A : Type} (l : list A) :
  products (map (fun x => [x]) l) = [l].
Proof.
  induction l as [ | x l IH]; simpl; [reflexivity | rewrite IH; reflexivity].
Qed.

Lemma eval_strings (env : Env) (ss : list string) :
  eval env (ast.ArrayTerm (map ast.StringTerm ss)) = [RArr (map RStr ss)].
Proof.
  cbn [eval]. rewrite map_map. cbn [eval].
  rewrite <- (map_map RStr (fun x => [x])), products_singletons. reflexivity.
Qed.

Lemma sprintf_uri (a b c : string) :
  sprintf "%s://%s%s" [a; b; c] = (a ++ "://" ++ b ++ c)%string.
Proof. simpl. rewrite append_empty. reflexivity. Qed.

(** An empty allow-list leaves the statements of a key unsatisfiable. *)
Lemma emit_empty_unsat (k : string) (env : Env) (rest : ast.Body) :
  In k conditionKeys -> Sat env (emit k [] ++ rest) -> False.
Proof.
  intros Hk. known_key Hk; unfold emit, allowVar, constraintOf; simpl.
  1-5: intros (v & Hv & Hc); destruct Hv as [<- | []];
       destruct Hc as ((w & H1 & H2) & _); simpl in H1, H2;
       solve [destruct H1 | destruct H2].
  intros (v & Hv & v0 & (w & _ & H2) & _). destruct Hv as [<- | []].
  simpl in H2. exact H2.
Qed.

(** C9: for each of the six conditions an empty sequence is not an error:
    the builder appends the assignment of the empty sequence to the
    allow-list variable and then the statements it appends for any value it
    accepts; these statements cannot hold, whatever the facts are. *)
Theorem empty_sequence_builds (k : string) (body : ast.Body) (env : Env) :
  In k conditionKeys ->
  addCondition k body (parser.Array [])
  = Ok (body ++ ast.Assign (ast.VarTerm (allowVar k)) (ast.ArrayTerm []) :: constraintOf k)
  /\ (forall data body',
        addCondition k body data = Ok body' ->
        exists ra,
          body' = body ++ ast.Assign (ast.VarTerm (allowVar k)) (ast.ArrayTerm ra)
                          :: constraintOf k)
  /\ (exists r, GenerateRule (parser.Object [(k, parser.Array [])]) = Ok (r, []))
  /\ (forall rest,
        Sat env ((ast.Assign (ast.VarTerm (allowVar k)) (ast.ArrayTerm []) :: constraintOf k)
                 ++ rest) <-> False).
Proof.
  intros Hk.
  assert (E : forall b, addCondition k b (parser.Array []) = Ok (b ++ emit k [])).
  { intros b. rewrite (addCondition_known _ _ Hk). reflexivity. }
  split; [apply E | split; [ | split]].
  - intros data body' H. rewrite (addCondition_known _ _ Hk) in H.
    destruct (coerce (expectsMessage k) data) as [pa | ]; simpl in H; [ | discriminate].
    destruct (range_append (stepOf k) pa) as [ra | ]; simpl in H; [ | discriminate].
    injection H as <-. exists ra. reflexivity.
  - rewrite GenerateRule_Object. cbn [rangeObject]. rewrite E. simpl. eauto.
  - intros rest. split; [ | intros []].
    apply (@emit_empty_unsat k env rest Hk).
Qed.

(** ** The [uri] condition *)

Lemma uri_loop (uris : list string) :
  Forall (fun u => url_Parse u = true) uris ->
  range_append sanURIElement (map parser.String uris) = Ok (map ast.StringTerm uris).
Proof.
  induction 1 as [ | u uris Hu _ IH]; simpl; [reflexivity | ].
  rewrite Hu, IH. reflexivity.
Qed.

(** The value of [san_uris[san_uri_index].F] once the index stands for [v0]. *)
Lemma eval_part (f : Facts) (v0 allow : RVal) (F : string) :
  eval (("san_uri_index", v0) :: ("allowed_san_uris", allow) :: facts_env f)
       (ast.RefTerm (ast.VarTerm "san_uris")
          [ast.VarTerm "san_uri_index"; ast.StringTerm F])
  = match v0 with
    | RNum n =>
        match nth_error (san_uris f) (N.to_nat n) with
        | Some u => field F (url_value u)
        | None => []
        end
    | _ => []
    end.
Proof.
  destruct v0 as [s | n | elems | fields]; simpl; try reflexivity.
  rewrite nth_error_map.
  destruct (nth_error (san_uris f) (N.to_nat n)); simpl; [ | reflexivity].
  rewrite !app_nil_r. reflexivity.
Qed.

Lemma eval_Call (env : Env) (op : string) (args : list ast.Term) :
  eval env (ast.CallTerm op args) = flat_map (call op) (products (map (eval env) args)).
Proof. reflexivity. Qed.

Lemma eval_Array (env : Env) (elems : list ast.Term) :
  eval env (ast.ArrayTerm elems) = map RArr (products (map (eval env) elems)).
Proof. reflexivity. Qed.

(** The value of the [sprintf] call of [uriCheckBody]. *)
Lemma eval_sprintf (f : Facts) (v0 allow : RVal) :
  let part F := ast.RefTerm (ast.VarTerm "san_uris")
                  [ast.VarTerm "san_uri_index"; ast.StringTerm F] in
  eval (("san_uri_index", v0) :: ("allowed_san_uris", allow) :: facts_env f)
       (ast.CallTerm "sprintf"
          [ast.StringTerm "%s://%s%s";
           ast.ArrayTerm [part "Scheme"; part "Host"; part "Path"]])
  = match v0 with
    | RNum n =>
        match nth_error (san_uris f) (N.to_nat n) with
        | Some u => [RStr (reconstruct u)]
        | None => []
        end
    | _ => []
    end.
Proof.
  intros part. unfold part.
  rewrite eval_Call. cbn [map]. rewrite eval_Array. cbn [map]. rewrite !eval_part.
  destruct v0 as [s | n | elems | fields]; try reflexivity.
  destruct (nth_error (san_uris f) (N.to_nat n)) as [u | ]; [ | reflexivity].
  simpl. rewrite append_empty. reflexivity.
Qed.

Lemma Sat_uri (f : Facts) (uris : list string) :
  Sat (facts_env f)
      (ast.Assign (ast.VarTerm "allowed_san_uris")
         (ast.ArrayTerm (map ast.StringTerm uris)) :: uriCheckBody)
  <-> exists u a, In u (san_uris f) /\ In a uris /\ a = reconstruct u.
Proof.
  unfold uriCheckBody. cbn [Sat declare]. rewrite eval_strings. split.
  - intros (v & [<- | []] & v0 & (w & H1 & H2) & _).
    rewrite eval_sprintf in H1. simpl in H2. rewrite app_nil_r in H2.
    destruct v0 as [s | n | elems | fields]; try destruct H1.
    destruct (nth_error (san_uris f) (N.to_nat n)) as [u | ] eqn:E; [ | destruct H1].
    destruct H1 as [<- | []].
    apply in_map_iff in H2 as (a & [= ->] & Ha).
    exists u, (reconstruct u). split; [ | auto].
    eapply nth_error_In; exact E.
  - intros (u & a & Hu & Ha & ->).
    apply In_nth_error in Hu as [n E].
    exists (RArr (map RStr uris)). split; [left; reflexivity | ].
    exists (RNum (N.of_nat n)). split; [ | exact I].
    exists (RStr (reconstruct u)). rewrite eval_sprintf, Nat2N.id, E. split.
    + left; reflexivity.
    + simpl. rewrite app_nil_r. apply in_map, Ha.
Qed.

(** C2: the [uri] builder binds the configured strings as they are
    written and asserts that some SAN URI of the certificate, read as its
    scheme, [://], its host and its path (neither its query nor its
    fragment), is equal to some entry of that list. *)
Theorem uri_condition (uris : list string) (body : ast.Body) (f : Facts) :
  Forall (fun u => url_Parse u = true) uris ->
  addSanURICondition body (parser.Array (map parser.String uris))
  = Ok (body ++ ast.Assign (ast.VarTerm "allowed_san_uris")
                  (ast.ArrayTerm (map ast.StringTerm uris)) :: uriCheckBody)
  /\ (Sat (facts_env f)
          (ast.Assign (ast.VarTerm "allowed_san_uris")
             (ast.ArrayTerm (map ast.StringTerm uris)) :: uriCheckBody)
      <-> exists u a,
            In u (san_uris f) /\ In a uris /\
            a = (Scheme u ++ "://" ++ Host u ++ Path u)%string)
  /\ (forall u q fr,
        reconstruct {| Scheme := Scheme u; Host := Host u; Path := Path u;
                       RawQuery := q; Fragment := fr |}
        = reconstruct u).
Proof.
  intros H. split; [ | split].
  - unfold addSanURICondition. simpl. rewrite (uri_loop H). simpl.
    rewrite <- !app_assoc. reflexivity.
  - apply Sat_uri.
  - reflexivity.
Qed.

(** * Further properties of the builders *)

(** ** DNS names *)

Lemma in_class_single (a c : ascii) : in_class [(a, a)] c = true -> c = a.
Proof.
  unfold in_class, byte_le. simpl. rewrite orb_false_r.
  intros H. apply andb_true_iff in H as [A B]. apply N.leb_le in A, B.
  rewrite <- (ascii_N_embedding c), <- (ascii_N_embedding a).
  f_equal. lia.
Qed.

Lemma in_class_app (cs cs' : cclass) (c : ascii) :
  in_class (cs ++ cs') c = in_class cs c || in_class cs' c.
Proof. unfold in_class. apply existsb_app. Qed.

Lemma Matches_RepUpTo_Class (cs : cclass) (n : nat) :
  forall s, Matches (RepUpTo n (Class cs)) s <->
            List.length s <= n /\ Forall (fun c => in_class cs c = true) s.
Proof.
  induction n as [ | n IH]; intros s; simpl RepUpTo.
  - split.
    + intros H. apply Matches_Eps_inv in H as ->. simpl. auto.
    + intros [L _]. destruct s; [constructor | simpl in L; lia].
  - unfold Opt. split.
    + intros H. apply Matches_Alt_inv in H as [H | H].
      * apply Matches_Eps_inv in H as ->. simpl. split; [lia | constructor].
      * apply Matches_Cat_inv in H as (s1 & s2 & -> & H1 & H2).
        apply Matches_Class_inv in H1 as (c & -> & Hc).
        apply IH in H2 as [L F]. simpl. split; [lia | constructor; assumption].
    + intros [L F]. destruct s as [ | c s]; [apply MAltL; constructor | ].
      apply MAltR. inversion F; subst. simpl in L.
      change (c :: s) with ([c] ++ s). constructor.
      * constructor; assumption.
      * apply IH. split; [lia | assumption].
Qed.

Lemma Matches_Star_parts (r : regex) (s : list ascii) :
  Matches (Star r) s <-> exists parts, Forall (Matches r) parts /\ s = concat parts.
Proof.
  split.
  - intros H. remember (Star r) as r0 eqn:E.
    induction H as [ | | | | | | r' s1 s2 H1 _ H2 IH2 ]; try discriminate.
    + exists []. auto.
    + injection E as ->. destruct (IH2 eq_refl) as (parts & F & ->).
      exists (s1 :: parts). split; [constructor; assumption | reflexivity].
  - intros (parts & F & ->). induction F as [ | p parts Hp _ IH]; simpl.
    + constructor.
    + constructor; assumption.
Qed.

Lemma dns_label_spec (l : list ascii) : Matches dns_label l <-> dns_label_form l.
Proof.
  unfold dns_label, dns_label_form. simpl Rep. split.
  - intros H. apply Matches_Cat_inv in H as (s1 & s2 & -> & H1 & H2).
    apply Matches_Cat_inv in H1 as (s3 & s4 & -> & H3 & H4).
    apply Matches_Class_inv in H3 as (c & -> & Hc).
    apply Matches_Eps_inv in H4 as ->.
    apply Matches_RepUpTo_Class in H2 as [L F].
    exists c, s2. auto.
  - intros (c & rest & -> & Hc & L & F).
    change (c :: rest) with (([c] ++ []) ++ rest).
    constructor.
    + constructor; constructor; assumption.
    + apply Matches_RepUpTo_Class. auto.
Qed.

Lemma dns_name_spec (s : string) :
  MatchString rxDNSName s = true <-> dns_name_form s.
Proof.
  unfold MatchString, rxDNSName, dns_name_form. rewrite rmatch_Matches.
  simpl Rep. unfold Opt. split.
  - intros H. apply Matches_Cat_inv in H as (s1 & s2 & E & H1 & H2).
    apply Matches_Cat_inv in H1 as (l0 & e & -> & H1 & He).
    apply Matches_Eps_inv in He as ->. rewrite app_nil_r in E.
    apply dns_label_spec in H1.
    apply Matches_Cat_inv in H2 as (s3 & tail & -> & H3 & H4).
    apply Matches_Star_parts in H3 as (parts & F & ->).
    assert (P : exists labels, Forall dns_label_form labels /\
                               concat parts = flat_map (fun l => "."%char :: l) labels).
    { clear - F. induction F as [ | p parts Hp _ (labels & Fl & El)].
      - exists []. auto.
      - apply Matches_Cat_inv in Hp as (d & l & -> & Hd & Hl).
        apply Matches_Class_inv in Hd as (c & -> & Hc).
        apply in_class_single in Hc as ->. apply dns_label_spec in Hl.
        exists (l :: labels). split; [constructor; assumption | ].
        simpl. rewrite El. reflexivity. }
    destruct P as (labels & Fl & El). rewrite El in E.
    exists l0, labels, tail. repeat split; auto.
    apply Matches_Alt_inv in H4 as [H4 | H4].
    + apply Matches_Eps_inv in H4. auto.
    + apply Matches_Class_inv in H4 as (c & -> & Hc). right.
      change [(".", "."); ("_", "_")]%char
        with ([(".", ".")] ++ [("_", "_")])%char in Hc.
      rewrite in_class_app in Hc. apply orb_true_iff in Hc as [Hc | Hc];
        apply in_class_single in Hc as ->; auto.
  - intros (l0 & labels & tail & H0 & Fl & Ht & ->).
    replace l0 with (l0 ++ []) by apply app_nil_r.
    constructor.
    + constructor; [apply dns_label_spec; assumption | constructor].
    + constructor.
      * apply Matches_Star_parts.
        exists (map (fun l => "."%char :: l) labels). split.
        -- clear - Fl. induction Fl as [ | l labels Hl _ IH]; simpl; constructor; auto.
           change ("."%char :: l) with (["."%char] ++ l). constructor.
           ++ constructor. reflexivity.
           ++ apply dns_label_spec. assumption.
        -- rewrite flat_map_concat_map. reflexivity.
      * destruct Ht as [-> | [-> | ->]].
        -- apply MAltL. constructor.
        -- apply MAltR. constructor. reflexivity.
        -- apply MAltR. constructor. reflexivity.
Qed.

Lemma dns_next_bytes (c : ascii) : in_class dns_next c = true -> in_class dns_bytes c = true.
Proof.
  change dns_bytes with (dns_next ++ [(".", ".")]%char). rewrite in_class_app.
  intros ->. reflexivity.
Qed.

Lemma dns_first_next (c : ascii) : in_class dns_first c = true -> in_class dns_next c = true.
Proof.
  change dns_next with (dns_first ++ [("-", "-")]%char). rewrite in_class_app.
  intros ->. reflexivity.
Qed.

Lemma dns_label_bytes (l : list ascii) :
  dns_label_form l -> Forall (fun c => in_class dns_bytes c = true) l.
Proof.
  intros (c & rest & -> & Hc & _ & F). constructor.
  - apply dns_next_bytes, dns_first_next, Hc.
  - eapply Forall_impl; [ | exact F]. apply dns_next_bytes.
Qed.

(** X1: the [dns] loop body accepts a string exactly when it is a label
    (a byte of [[a-zA-Z0-9_]], then at most 62 bytes of [[a-zA-Z0-9_-]]),
    then any number of labels each after a dot, then nothing, a dot or an
    underscore, and it returns the string as it is.  So an accepted name is
    not empty, begins with a byte of [[a-zA-Z0-9_]] (neither a hyphen nor a
    dot) and holds no byte outside [[a-zA-Z0-9_.-]]. *)
Theorem sanDNSElement_grammar (s : string) :
  (sanDNSElement (parser.String s) = Ok (ast.StringTerm s) <-> dns_name_form s)
  /\ (is_ok (sanDNSElement (parser.String s)) = false <-> (dns_name_form s -> False))
  /\ (dns_name_form s ->
        exists c rest,
          chars s = c :: rest /\ in_class dns_first c = true /\
          Forall (fun x => in_class dns_bytes x = true) rest).
Proof.
  assert (D : sanDNSElement (parser.String s)
              = if MatchString rxDNSName s then Ok (ast.StringTerm s)
                else Err ("certificate SAN dns must be a valid DNS name (was "
                          ++ s ++ ")")%string).
  { unfold sanDNSElement. destruct (MatchString rxDNSName s); reflexivity. }
  rewrite D. split; [ | split].
  - rewrite <- dns_name_spec. destruct (MatchString rxDNSName s); split; try reflexivity;
      discriminate.
  - rewrite <- dns_name_spec. destruct (MatchString rxDNSName s); simpl; split; auto;
      try discriminate. intros H. exfalso. apply H. reflexivity.
  - intros (l0 & labels & tail & H0 & Fl & Ht & E).
    pose proof (dns_label_bytes H0) as B0.
    destruct H0 as (c & rest & -> & Hc & _ & _).
    exists c, (rest ++ flat_map (fun l => "."%char :: l) labels ++ tail).
    split; [exact E | split; [exact Hc | ]].
    inversion B0; subst.
    apply Forall_app. split; [assumption | ].
    apply Forall_app. split.
    + clear - Fl. induction Fl as [ | l labels Hl _ IH]; simpl; [constructor | ].
      constructor; [reflexivity | ].
      apply Forall_app. split; [apply dns_label_bytes; assumption | assumption].
    + destruct Ht as [-> | [-> | ->]]; repeat constructor.
Qed.


(** ** Allow-lists *)

Lemma keeps_accepted_loop (step : parser.Value -> result ast.Term)
    (accept : string -> bool) :
  keeps_accepted step accept ->
  forall vs ra,
    range_append step vs = Ok ra <->
    exists ss, vs = map parser.String ss /\ Forall (fun s => accept s = true) ss /\
               ra = map ast.StringTerm ss.
Proof.
  intros K vs ra. rewrite range_append_Ok. revert ra.
  induction vs as [ | v vs IH]; intros ra; split.
  - intros H. inversion H. exists []. auto.
  - intros (ss & E & _ & ->). destruct ss; [constructor | discriminate].
  - intros H. inversion H as [ | ? t ? ra' Hv Hr]; subst.
    apply K in Hv as (s & -> & A & ->). apply IH in Hr as (ss & -> & F & ->).
    exists (s :: ss). auto.
  - intros (ss & E & F & ->). destruct ss as [ | s ss]; [discriminate | ].
    injection E as -> ->. inversion F; subst. constructor.
    + apply K. eauto.
    + apply IH. eauto.
Qed.

Lemma sanEmailElement_keeps : keeps_accepted sanEmailElement mail_ParseAddress.
Proof.
  intros v t. split.
  - destruct v as [s | | ]; simpl; try discriminate.
    destruct (mail_ParseAddress s) eqn:A; simpl; [ | discriminate].
    intros [= <-]. eauto.
  - intros (s & -> & A & ->). simpl. rewrite A. reflexivity.
Qed.

Lemma sanDNSElement_keeps : keeps_accepted sanDNSElement (MatchString rxDNSName).
Proof.
  intros v t. split.
  - destruct v as [s | | ]; simpl; try discriminate.
    destruct (MatchString rxDNSName s) eqn:A; simpl; [ | discriminate].
    intros [= <-]. eauto.
  - intros (s & -> & A & ->). unfold sanDNSElement. rewrite A. reflexivity.
Qed.

Lemma sanIPElement_keeps : keeps_accepted sanIPElement net_ParseIP.
Proof.
  intros v t. split.
  - destruct v as [s | | ]; simpl; try discriminate.
    destruct (net_ParseIP s) eqn:A; simpl; [ | discriminate].
    intros [= <-]. eauto.
  - intros (s & -> & A & ->). simpl. rewrite A. reflexivity.
Qed.

Lemma sanURIElement_keeps : keeps_accepted sanURIElement url_Parse.
Proof.
  intros v t. split.
  - destruct v as [s | | ]; simpl; try discriminate.
    destruct (url_Parse s) eqn:A; simpl; [ | discriminate].
    intros [= <-]. eauto.
  - intros (s & -> & A & ->). simpl. rewrite A. reflexivity.
Qed.

Lemma builder_keeps (step : parser.Value -> result ast.Term) (accept : string -> bool)
    (body tail_ : ast.Body) (x : string) (vs : list parser.Value) (body' : ast.Body) :
  keeps_accepted step accept ->
  (ra <- range_append step vs ;;
   Ok (body ++ ast.Assign (ast.VarTerm x) (ast.ArrayTerm ra) :: tail_)) = Ok body' <->
  exists ss, vs = map parser.String ss /\ Forall (fun s => accept s = true) ss /\
             body' = body ++ ast.Assign (ast.VarTerm x)
                               (ast.ArrayTerm (map ast.StringTerm ss)) :: tail_.
Proof.
  intros K. split.
  - destruct (range_append step vs) as [ra | ] eqn:R; simpl; [ | discriminate].
    intros [= <-]. apply (keeps_accepted_loop K) in R as (ss & -> & F & ->). eauto.
  - intros (ss & -> & F & ->).
    assert (R : range_append step (map parser.String ss) = Ok (map ast.StringTerm ss)).
    { apply (keeps_accepted_loop K). eauto. }
    rewrite R. reflexivity.
Qed.

(** X2: the e-mail, DNS, IP and URI builders accept a sequence exactly
    when every element is a string their test accepts ([mail.ParseAddress],
    the DNS pattern, [net.ParseIP], [url.Parse]); the allow-list then holds
    these strings as they are written, in their order, repeated ones
    included. *)
Theorem allow_list_verbatim (body : ast.Body) (vs : list parser.Value)
    (body' : ast.Body) :
  (addSanEmailCondition body (parser.Array vs) = Ok body' <->
   exists ss, vs = map parser.String ss /\
              Forall (fun s => mail_ParseAddress s = true) ss /\
              body' = body ++
                [ ast.Assign (ast.VarTerm "allowed_san_emails")
                    (ast.ArrayTerm (map ast.StringTerm ss));
                  ast.Equal (ast.VarTerm "allowed_san_emails[_]")
                            (ast.VarTerm "san_email_addresses[_]") ])
  /\ (addSanDNSCondition body (parser.Array vs) = Ok body' <->
      exists ss, vs = map parser.String ss /\
                 Forall (fun s => MatchString rxDNSName s = true) ss /\
                 body' = body ++
                   [ ast.Assign (ast.VarTerm "allowed_san_dns_names")
                       (ast.ArrayTerm (map ast.StringTerm ss));
                     ast.Equal (ast.VarTerm "allowed_san_dns_names[_]")
                               (ast.VarTerm "san_dns_names[_]") ])
  /\ (addSanIPCondition body (parser.Array vs) = Ok body' <->
      exists ss, vs = map parser.String ss /\
                 Forall (fun s => net_ParseIP s = true) ss /\
                 body' = body ++
                   [ ast.Assign (ast.VarTerm "allowed_san_ip_addresses")
                       (ast.ArrayTerm (map ast.StringTerm ss));
                     ast.Equal (ast.VarTerm "allowed_san_ip_addresses[_]")
                               (ast.VarTerm "san_ip_addresses[_]") ])
  /\ (addSanURICondition body (parser.Array vs) = Ok body' <->
      exists ss, vs = map parser.String ss /\
                 Forall (fun s => url_Parse s = true) ss /\
                 body' = body ++
                   ast.Assign (ast.VarTerm "allowed_san_uris")
                     (ast.ArrayTerm (map ast.StringTerm ss)) :: uriCheckBody).
Proof.
  split; [ | split; [ | split]].
  - apply (builder_keeps body _ _ vs body' sanEmailElement_keeps).
  - apply (builder_keeps body _ _ vs body' sanDNSElement_keeps).
  - apply (builder_keeps body _ _ vs body' sanIPElement_keeps).
  - rewrite <- (builder_keeps body uriCheckBody "allowed_san_uris" vs body'
                  sanURIElement_keeps).
    unfold addSanURICondition. simpl.
    destruct (range_append sanURIElement vs); simpl; [ | reflexivity].
    rewrite <- !app_assoc. reflexivity.
Qed.

Lemma fingerprint_loop (vs : list parser.Value) :
  forall ra,
    range_append canonicalCertFingerprint vs = Ok ra <->
    exists ss hs,
      vs = map parser.String ss /\ ra = map ast.StringTerm hs /\
      Forall2 (fun s h => (short_form s /\ h = s) \/
                          (long_form s /\ h = lower_no_colon s)) ss hs.
Proof.
  intros ra. rewrite range_append_Ok. revert ra.
  induction vs as [ | v vs IH]; intros ra; split.
  - intros H. inversion H. exists [], []. auto.
  - intros (ss & hs & E & -> & F). destruct ss; [ | discriminate].
    inversion F. constructor.
  - intros H. inversion H as [ | ? t ? ra' Hv Hr]; subst.
    apply IH in Hr as (ss & hs & -> & -> & F).
    destruct v as [s | | ]; try discriminate Hv.
    apply canonical_inv in Hv.
    destruct Hv as [[Hs ->] | [Hl ->]].
    + exists (s :: ss), (s :: hs). repeat split; auto.
    + exists (s :: ss), (lower_no_colon s :: hs). repeat split; auto.
  - intros (ss & hs & E & -> & F). destruct ss as [ | s ss]; [discriminate | ].
    injection E as -> ->. inversion F as [ | ? h ? hs' Hh F']; subst. simpl.
    constructor.
    + destruct Hh as [[Hs ->] | [Hl ->]];
        [apply canonical_short | apply canonical_long]; assumption.
    + apply IH. eauto.
Qed.

(** X3: the fingerprint builder accepts a sequence exactly when every
    element is a string in the short or in the long form; the allow-list
    then holds, in the same order, one text of 64 lowercase hexadecimal
    digits for each of them: a short form as it is, a long form without
    its colons and in lowercase. *)
Theorem fingerprint_allow_list (body : ast.Body) (vs : list parser.Value)
    (body' : ast.Body) :
  addCertFingerprintCondition body (parser.Array vs) = Ok body' <->
  exists ss hs,
    vs = map parser.String ss /\
    Forall2 (fun s h => (short_form s /\ h = s) \/
                        (long_form s /\ h = lower_no_colon s)) ss hs /\
    Forall short_form hs /\
    body' = body ++
      [ ast.Assign (ast.VarTerm "allowed_fingerprints")
          (ast.ArrayTerm (map ast.StringTerm hs));
        ast.Equal (ast.VarTerm "fingerprint") (ast.VarTerm "allowed_fingerprints[_]") ].
Proof.
  unfold addCertFingerprintCondition. simpl. split.
  - destruct (range_append canonicalCertFingerprint vs) as [ra | ] eqn:R; simpl;
      [ | discriminate].
    intros [= <-]. apply fingerprint_loop in R as (ss & hs & -> & -> & F).
    exists ss, hs. repeat split; auto.
    clear - F. induction F as [ | s h ss hs Hh _ IH]; constructor; auto.
    destruct Hh as [[Hs ->] | [Hl ->]]; [assumption | apply long_form_lower, Hl].
  - intros (ss & hs & -> & F & _ & ->).
    assert (R : range_append canonicalCertFingerprint (map parser.String ss)
                = Ok (map ast.StringTerm hs)).
    { apply fingerprint_loop. eauto. }
    rewrite R. reflexivity.
Qed.

Lemma step_wants_string (k : string) (v : parser.Value) :
  In k conditionKeys -> (forall s, v = parser.String s -> False) ->
  is_ok (stepOf k v) = false.
Proof.
  intros Hk Hv.
  destruct v as [s | elems | entries]; [exfalso; exact (Hv s eq_refl) | | ];
    known_key Hk; reflexivity.
Qed.

(** X4: every builder refuses a sequence that holds an element that is
    not a string (a sequence in a sequence, an object), and compiling an
    object with such an entry gives an error and no rule. *)
Theorem elements_must_be_strings (k : string) (body : ast.Body)
    (vs : list parser.Value) (v : parser.Value) :
  In k conditionKeys ->
  In v vs ->
  (forall s, v = parser.String s -> False) ->
  (exists msg, addCondition k body (parser.Array vs) = Err msg)
  /\ forall obj, In (k, parser.Array vs) obj ->
       exists msg, GenerateRule (parser.Object obj) = Err msg.
Proof.
  intros Hk Hin Hv.
  assert (E : forall b, is_ok (addCondition k b (parser.Array vs)) = false).
  { intros b. rewrite (addCondition_known _ _ Hk). simpl.
    pose proof (range_append_is_ok (stepOf k) vs) as R.
    destruct (range_append (stepOf k) vs) as [ra | ]; [ | reflexivity].
    simpl in R. symmetry in R. rewrite forallb_forall in R.
    specialize (R v Hin). rewrite (step_wants_string Hk Hv) in R. discriminate R. }
  split.
  - apply not_ok_Err, E.
  - intros obj Ho. apply not_ok_Err. rewrite GenerateRule_is_ok.
    destruct (forallb _ obj) eqn:F; [ | reflexivity].
    rewrite forallb_forall in F. specialize (F _ Ho). simpl in F.
    unfold fragment in F. rewrite E in F. discriminate F.
Qed.


(** ** The text of an accepted SPKI hash *)

Lemma decode_quanta_shape (n : nat) :
  forall l b,
    List.length l <= n -> decode_quanta l = Some b ->
    exists p,
      p <= 2 /\ 3 * List.length l = 4 * (List.length b + p) /\
      (p = 1 -> exists pre c v, l = pre ++ [c; padChar] /\ sextet c = Some v).
Proof.
  induction n as [ | n IH]; intros l b L H.
  - destruct l; [ | simpl in L; lia]. injection H as <-. exists 0. simpl.
    repeat split; [lia | discriminate].
  - destruct l as [ | c1 [ | c2 [ | c3 [ | c4 rest]]]]; try discriminate H.
    + injection H as <-. exists 0. simpl. repeat split; [lia | discriminate].
    + cbn [decode_quanta] in H.
      destruct (sextet c1) as [a1 | ]; [ | discriminate H].
      destruct (sextet c2) as [a2 | ]; [ | discriminate H].
      destruct (sextet c3) as [a3 | ] eqn:S3.
      * destruct (sextet c4) as [a4 | ].
        -- destruct (decode_quanta rest) as [tl | ] eqn:D; [ | discriminate H].
           simpl in H. injection H as <-.
           assert (Lr : List.length rest <= n) by (simpl in L; lia).
           destruct (IH rest tl Lr D) as (p & P2 & E & Hp).
           exists p. split; [exact P2 | split].
           ++ simpl. lia.
           ++ intros P1. destruct (Hp P1) as (pre & c & v & -> & Sc).
              exists (c1 :: c2 :: c3 :: c4 :: pre), c, v. auto.
        -- destruct rest; [ | discriminate H].
           destruct (Ascii.eqb c4 padChar) eqn:Q; [ | discriminate H].
           apply Ascii.eqb_eq in Q. subst c4. injection H as <-.
           exists 1. split; [lia | split; [reflexivity | ]].
           intros _. exists [c1; c2], c3, a3. auto.
      * destruct rest; [ | destruct (sextet c4); discriminate H].
        assert (H' : (if Ascii.eqb c3 padChar && Ascii.eqb c4 padChar
                      then Some [low_byte (N.shiftr (quantum a1 a2 0 0) 16)]
                      else None) = Some b)
          by (destruct (sextet c4); exact H).
        destruct (Ascii.eqb c3 padChar && Ascii.eqb c4 padChar); [ | discriminate H'].
        injection H' as <-. exists 2. split; [lia | split; [reflexivity | ]].
        intros P. discriminate P.
Qed.

(** X5: a string the SPKI hash loop body accepts has, CR and LF bytes
    apart, exactly 44 bytes, the last of which is the one padding sign
    [=], after a byte of the base64 alphabet. *)
Theorem accepted_spki_hash_text (h : string) (t : ast.Term) :
  spkiHashElement (parser.String h) = Ok t ->
  List.length (filter (fun c => negb (is_newline c)) (chars h)) = 44
  /\ exists pre c v,
       filter (fun c => negb (is_newline c)) (chars h) = pre ++ [c; "="%char]
       /\ List.length pre = 42 /\ sextet c = Some v.
Proof.
  intros H. apply spkiHashElement_Ok in H as (h' & b & [= <-] & D & L & _).
  unfold base64_DecodeString in D.
  destruct (@decode_quanta_shape _ _ b (le_n _) D) as (p & P2 & E & Hp).
  rewrite L in E.
  assert (P1 : p = 1) by lia. subst p.
  assert (L44 : List.length (filter (fun c => negb (is_newline c)) (chars h)) = 44)
    by lia.
  split; [exact L44 | ].
  destruct (Hp eq_refl) as (pre & c & v & Epre & Sc).
  exists pre, c, v. split; [exact Epre | split; [ | exact Sc]].
  rewrite Epre, length_app in L44. simpl in L44. lia.
Qed.

(** ** How many statements a rule holds *)

Lemma count_expr_app (p : ast.Expr -> bool) (b1 b2 : ast.Body) :
  count_expr p (b1 ++ b2) = count_expr p b1 + count_expr p b2.
Proof. unfold count_expr. rewrite filter_app, length_app. reflexivity. Qed.

Lemma count_emit (k : string) (ra : list ast.Term) :
  In k conditionKeys ->
  count_expr is_Equal (emit k ra) = 1
  /\ count_expr is_Assign (emit k ra) = 1
  /\ count_expr is_SomeDecl (emit k ra) = (if String.eqb k "uri" then 1 else 0).
Proof. intros Hk. known_key Hk; repeat split; reflexivity. Qed.

Lemma count_blocks (obj : list (string * parser.Value)) :
  forallb (fun kv => is_ok (fragment (fst kv) (snd kv))) obj = true ->
  count_expr is_Equal (flat_map block obj) = List.length obj
  /\ count_expr is_Assign (flat_map block obj) = List.length obj
  /\ count_expr is_SomeDecl (flat_map block obj)
     = List.length (filter (fun kv => String.eqb (fst kv) "uri") obj).
Proof.
  induction obj as [ | [k v] obj IH]; simpl; intros H; [repeat split; reflexivity | ].
  apply andb_true_iff in H as [Hk Ho]. destruct (IH Ho) as (E & A & S).
  rewrite !count_expr_app, E, A, S. unfold block. simpl.
  destruct (fragment k v) as [f | ] eqn:F; [ | discriminate Hk].
  apply fragment_Ok in F as (Hin & ra & ->).
  destruct (count_emit ra Hin) as (E1 & A1 & S1). rewrite E1, A1, S1.
  repeat split. destruct (String.eqb k "uri"); reflexivity.
Qed.

(** X6: the body of a compiled rule holds one constraint for each key of
    the object, the seven assignments of the prologue and one assignment
    for each key, and one [some] declaration for each [uri] key; so an
    object without keys compiles to the prologue alone, a body without any
    constraint. *)
Theorem statement_counts (obj : list (string * parser.Value)) (r : Rule)
    (aux : list Rule) :
  GenerateRule (parser.Object obj) = Ok (r, aux) ->
  count_expr is_Equal (rule_body r) = List.length obj
  /\ count_expr is_Assign (rule_body r) = 7 + List.length obj
  /\ count_expr is_SomeDecl (rule_body r)
     = List.length (filter (fun kv => String.eqb (fst kv) "uri") obj)
  /\ (obj = [] -> rule_body r = clientCertificateBaseBody).
Proof.
  intros H.
  assert (O : forallb (fun kv => is_ok (fragment (fst kv) (snd kv))) obj = true).
  { rewrite <- GenerateRule_is_ok, H. reflexivity. }
  apply GenerateRule_Ok in H as [-> ->]. cbn [rule_body].
  destruct (count_blocks obj O) as (E & A & S).
  rewrite !count_expr_app, E, A, S.
  repeat split. intros ->. reflexivity.
Qed.

(** ** Names bound once *)

Lemma binders_app (sb : bool) (b1 b2 : ast.Body) :
  binders sb (b1 ++ b2) = binders sb b2 ++ binders sb b1.
Proof.
  induction b1 as [ | e b1 IH]; simpl; [symmetry; apply app_nil_r | ].
  destruct e; rewrite IH, ?app_assoc; reflexivity.
Qed.

Lemma block_binders (k : string) (v : parser.Value) :
  NoDup (binders true (block (k, v)))
  /\ forall x, In x (binders true (block (k, v))) -> keyOf x = k /\ In k conditionKeys.
Proof.
  unfold block. simpl. destruct (fragment k v) as [f | ] eqn:F.
  - apply fragment_Ok in F as (Hk & ra & ->). split.
    + known_key Hk; simpl; repeat constructor; simpl; intuition discriminate.
    + intros x Hx. split; [ | exact Hk].
      known_key Hk; simpl in Hx; intuition (subst; reflexivity).
  - split; [constructor | intros x []].
Qed.

Lemma blocks_binders (obj : list (string * parser.Value)) :
  NoDup (map fst obj) ->
  NoDup (binders true (flat_map block obj))
  /\ forall x, In x (binders true (flat_map block obj)) ->
       In (keyOf x) (map fst obj) /\ In (keyOf x) conditionKeys.
Proof.
  induction obj as [ | [k v] obj IH]; simpl; intros N.
  - split; [constructor | intros x []].
  - inversion N as [ | ? ? Nk No]; subst. destruct (IH No) as [Nb Hb].
    destruct (block_binders k v) as [Nk' Hk'].
    rewrite binders_app. split.
    + apply NoDup_app; [exact Nb | exact Nk' | ].
      intros x Hx Hx'. apply Hb in Hx as [Hx _]. apply Hk' in Hx' as [<- _].
      exact (Nk Hx).
    + intros x Hx. apply in_app_or in Hx as [Hx | Hx].
      * apply Hb in Hx as [H1 H2]. auto.
      * apply Hk' in Hx as [<- H2]. auto.
Qed.

(** X7: in the body of a rule compiled from an object (its keys are
    distinct) no name is bound twice: the names the prologue assigns, the
    allow-list variable of each key and the index variable of the [uri]
    condition are all different. *)
Theorem names_bound_once (obj : list (string * parser.Value)) (r : Rule)
    (aux : list Rule) :
  NoDup (map fst obj) ->
  GenerateRule (parser.Object obj) = Ok (r, aux) ->
  NoDup (binders true (rule_body r)).
Proof.
  intros N H. apply GenerateRule_Ok in H as [-> ->]. cbn [rule_body].
  rewrite binders_app. destruct (@blocks_binders obj N) as [Nb Hb].
  apply NoDup_app; [exact Nb | | ].
  - simpl. repeat constructor; simpl; intuition discriminate.
  - intros x Hx Hp. apply Hb in Hx as [_ Hx].
    simpl in Hp. simpl in Hx.
    repeat (destruct Hp as [<- | Hp]; [simpl in Hx; intuition discriminate | ]).
    exact Hp.
Qed.

(** ** Where a compile error comes from *)

Lemma rangeObject_Err (obj : list (string * parser.Value)) (msg : string) :
  forall body,
    rangeObject body obj = Err msg ->
    exists before k v after,
      obj = before ++ (k, v) :: after /\
      is_ok (rangeObject body before) = true /\
      forall b, addCondition k b v = Err msg.
Proof.
  induction obj as [ | [k v] obj IH]; intros body H; simpl in H; [discriminate | ].
  destruct (addCondition k body v) as [b1 | m] eqn:E; simpl in H.
  - destruct (IH b1 H) as (before & k' & v' & after & -> & Hb & He).
    exists ((k, v) :: before), k', v', after. split; [reflexivity | split; [ | exact He]].
    simpl. rewrite E. exact Hb.
  - injection H as ->. exists [], k, v, obj. split; [reflexivity | split; [reflexivity | ]].
    intros b. rewrite addCondition_fragment in E |- *.
    destruct (fragment k v); [discriminate E | exact E].
Qed.

(** X8: when compiling an object fails, the error is the one the builder
    of some entry returns for that entry's value, and every entry visited
    before it builds: nothing is added to the message and no later entry is
    looked at. *)
Theorem compile_error_origin (obj : list (string * parser.Value)) (msg : string) :
  GenerateRule (parser.Object obj) = Err msg ->
  exists before k v after,
    obj = before ++ (k, v) :: after
    /\ is_ok (rangeObject clientCertificateBaseBody before) = true
    /\ (forall b, addCondition k b v = Err msg)
    /\ forall after',
         GenerateRule (parser.Object (before ++ (k, v) :: after')) = Err msg.
Proof.
  rewrite GenerateRule_Object. intros H.
  destruct (rangeObject clientCertificateBaseBody obj) as [b | m] eqn:E;
    [discriminate H | ].
  injection H as ->.
  destruct (rangeObject_Err _ _ E) as (before & k & v & after & -> & Hb & He).
  exists before, k, v, after. repeat split; auto.
  intros after'. rewrite GenerateRule_Object.
  rewrite (@rangeObject_first_error before after' k v msg _ Hb He). reflexivity.
Qed.

(** X9: a builder leaves the statements already in the body as they are:
    when it succeeds the new body is the old one followed by statements
    that do not depend on the old body, and when it fails it fails with the
    same error on every body. *)
Theorem builder_frame (k : string) (body : ast.Body) (v : parser.Value) :
  (forall body', addCondition k body v = Ok body' ->
     exists f, body' = body ++ f /\
               forall body2, addCondition k body2 v = Ok (body2 ++ f))
  /\ (forall msg, addCondition k body v = Err msg ->
        forall body2, addCondition k body2 v = Err msg).
Proof.
  split.
  - intros body' H. rewrite addCondition_fragment in H.
    destruct (fragment k v) as [f | ] eqn:F; [ | discriminate H].
    injection H as <-. exists f. split; [reflexivity | ].
    intros body2. rewrite addCondition_fragment, F. reflexivity.
  - intros msg H body2. rewrite addCondition_fragment in H |- *.
    destruct (fragment k v); [discriminate H | exact H].
Qed.


(** ** What the other conditions assert *)

Lemma Sat_assign_equal (env : Env) (x : string) (hs : list string)
    (l r : ast.Term) (rest : ast.Body) :
  Sat env (ast.Assign (ast.VarTerm x) (ast.ArrayTerm (map ast.StringTerm hs))
           :: ast.Equal l r :: rest)
  <-> (exists w, In w (eval ((x, RArr (map RStr hs)) :: env) l) /\
                 In w (eval ((x, RArr (map RStr hs)) :: env) r))
      /\ Sat ((x, RArr (map RStr hs)) :: env) rest.
Proof.
  cbn [Sat]. rewrite eval_strings. split.
  - intros (v & [<- | []] & H). exact H.
  - intros H. exists (RArr (map RStr hs)). split; [left; reflexivity | exact H].
Qed.

Lemma Sat_assign_some_equal (env : Env) (x i : string) (hs : list string)
    (l r : ast.Term) (rest : ast.Body) :
  Sat env (ast.Assign (ast.VarTerm x) (ast.ArrayTerm (map ast.StringTerm hs))
           :: ast.SomeDecl [ast.VarTerm i] :: ast.Equal l r :: rest)
  <-> exists v0,
        (exists w, In w (eval ((i, v0) :: (x, RArr (map RStr hs)) :: env) l) /\
                   In w (eval ((i, v0) :: (x, RArr (map RStr hs)) :: env) r))
        /\ Sat ((i, v0) :: (x, RArr (map RStr hs)) :: env) rest.
Proof.
  cbn [Sat declare]. rewrite eval_strings. split.
  - intros (v & [<- | []] & H). exact H.
  - intros H. exists (RArr (map RStr hs)). split; [left; reflexivity | exact H].
Qed.

Lemma common_string (xs ys : list string) :
  (exists w, In w (map RStr xs) /\ In w (map RStr ys))
  <-> exists a, In a xs /\ In a ys.
Proof.
  split.
  - intros (w & H1 & H2). apply in_map_iff in H1 as (a & <- & Ha).
    apply in_map_iff in H2 as (b & [= ->] & Hb). eauto.
  - intros (a & Ha & Hb). exists (RStr a). split; apply in_map; assumption.
Qed.

Lemma one_of_strings (x : string) (ys : list string) :
  (exists w, In w [RStr x] /\ In w (map RStr ys)) <-> In x ys.
Proof.
  change [RStr x] with (map RStr [x]). rewrite common_string. split.
  - intros (a & [<- | []] & H). exact H.
  - intros H. exists x. split; [left; reflexivity | exact H].
Qed.

(** X10: read as the engine reads them, the statements of the
    fingerprint condition hold exactly when the fingerprint of the
    certificate is one of the texts of the allow-list, and those of the
    SPKI hash condition exactly when its SPKI hash is one of them: the
    comparison is of whole strings, byte by byte. *)
Theorem scalar_conditions_meaning (f : Facts) (hs : list string) :
  (Sat (facts_env f)
       [ ast.Assign (ast.VarTerm "allowed_fingerprints")
           (ast.ArrayTerm (map ast.StringTerm hs));
         ast.Equal (ast.VarTerm "fingerprint") (ast.VarTerm "allowed_fingerprints[_]") ]
   <-> In (fingerprint f) hs)
  /\ (Sat (facts_env f)
          [ ast.Assign (ast.VarTerm "allowed_spki_hashes")
              (ast.ArrayTerm (map ast.StringTerm hs));
            ast.Equal (ast.VarTerm "spki_hash") (ast.VarTerm "allowed_spki_hashes[_]") ]
      <-> In (spki_hash f) hs).
Proof.
  split; rewrite Sat_assign_equal, <- (one_of_strings _ hs); simpl; tauto.
Qed.

(** X11: read as the engine reads them, the statements of the e-mail,
    DNS and IP conditions hold exactly when some text of the allow-list is
    equal, as a string, to some SAN entry of that kind of the certificate;
    a certificate with no such entry satisfies none of them. *)
Theorem list_conditions_meaning (f : Facts) (ss : list string) :
  (Sat (facts_env f)
       [ ast.Assign (ast.VarTerm "allowed_san_emails")
           (ast.ArrayTerm (map ast.StringTerm ss));
         ast.Equal (ast.VarTerm "allowed_san_emails[_]")
                   (ast.VarTerm "san_email_addresses[_]") ]
   <-> exists a, In a ss /\ In a (san_email_addresses f))
  /\ (Sat (facts_env f)
          [ ast.Assign (ast.VarTerm "allowed_san_dns_names")
              (ast.ArrayTerm (map ast.StringTerm ss));
            ast.Equal (ast.VarTerm "allowed_san_dns_names[_]")
                      (ast.VarTerm "san_dns_names[_]") ]
      <-> exists a, In a ss /\ In a (san_dns_names f))
  /\ (Sat (facts_env f)
          [ ast.Assign (ast.VarTerm "allowed_san_ip_addresses")
              (ast.ArrayTerm (map ast.StringTerm ss));
            ast.Equal (ast.VarTerm "allowed_san_ip_addresses[_]")
                      (ast.VarTerm "san_ip_addresses[_]") ]
      <-> exists a, In a ss /\ In a (san_ip_addresses f)).
Proof.
  split; [ | split]; rewrite Sat_assign_equal; simpl; rewrite common_string; tauto.
Qed.


(** ** The conditions of a rule hold together *)

Lemma step_Ok_string (k : string) (v : parser.Value) (t : ast.Term) :
  In k conditionKeys -> stepOf k v = Ok t -> exists h, t = ast.StringTerm h.
Proof.
  intros Hk.
  known_key Hk; cbv beta iota delta [stepOf String.eqb Ascii.eqb Bool.eqb]; intros H.
  - destruct v as [s | | ]; try discriminate H.
    apply canonical_inv in H as [[_ ->] | [_ ->]]; eauto.
  - apply spkiHashElement_Ok in H as (h & _ & _ & _ & _ & ->). eauto.
  - apply sanEmailElement_keeps in H as (h & _ & _ & ->). eauto.
  - apply sanDNSElement_keeps in H as (h & _ & _ & ->). eauto.
  - apply sanIPElement_keeps in H as (h & _ & _ & ->). eauto.
  - apply sanURIElement_keeps in H as (h & _ & _ & ->). eauto.
Qed.

Lemma loop_strings (k : string) (vs : list parser.Value) :
  In k conditionKeys ->
  forall ra, range_append (stepOf k) vs = Ok ra -> exists hs, ra = map ast.StringTerm hs.
Proof.
  intros Hk ra H. apply range_append_Ok in H.
  induction H as [ | v t vs ra Hv _ (hs & ->)].
  - exists []. reflexivity.
  - apply (@step_Ok_string k v t Hk) in Hv as (h & ->).
    exists (h :: hs). reflexivity.
Qed.

Lemma block_shape (k : string) (v : parser.Value) :
  (fragment k v = Ok (block (k, v)) /\ In k conditionKeys /\
   exists hs, block (k, v) = emit k (map ast.StringTerm hs))
  \/ (is_ok (fragment k v) = false /\ block (k, v) = []).
Proof.
  unfold block. simpl. destruct (fragment k v) as [f | ] eqn:F; [left | right; auto].
  split; [reflexivity | ].
  unfold fragment in F. destruct (mem k conditionKeys) eqn:M.
  - apply mem_In in M. split; [exact M | ].
    rewrite (addCondition_known _ _ M) in F.
    destruct (coerce (expectsMessage k) v) as [pa | ]; simpl in F; [ | discriminate].
    destruct (range_append (stepOf k) pa) as [ra | ] eqn:R; simpl in F; [ | discriminate].
    injection F as <-. destruct (@loop_strings k pa M ra R) as (hs & ->). eauto.
  - rewrite addCondition_unknown in F by exact M. discriminate F.
Qed.

Lemma same_facts_sym (env env' : Env) : same_facts env env' -> same_facts env' env.
Proof. intros H x Hx. symmetry. apply H, Hx. Qed.

Lemma same_facts_bind (env : Env) (x : string) (v : RVal) :
  mem x factNames = false -> same_facts env ((x, v) :: env).
Proof.
  intros M y Hy. simpl. destruct (String.eqb y x) eqn:E; [ | reflexivity].
  apply String.eqb_eq in E. subst y. apply mem_In in Hy. congruence.
Qed.

Lemma same_facts_trans (e1 e2 e3 : Env) :
  same_facts e1 e2 -> same_facts e2 e3 -> same_facts e1 e3.
Proof. intros H1 H2 x Hx. rewrite (H1 x Hx). apply H2, Hx. Qed.

(** The statements of a key need only the fact names of the environment. *)
Lemma Sat_emit_same_facts (env env' : Env) (k : string) (hs : list string) :
  In k conditionKeys -> same_facts env env' ->
  (Sat env (emit k (map ast.StringTerm hs)) <-> Sat env' (emit k (map ast.StringTerm hs))).
Proof.
  intros Hk H.
  assert (E1 := H "fingerprint"). assert (E2 := H "spki_hash").
  assert (E3 := H "san_email_addresses"). assert (E4 := H "san_dns_names").
  assert (E5 := H "san_ip_addresses"). assert (E6 := H "san_uris").
  simpl in E1, E2, E3, E4, E5, E6.
  known_key Hk;
    cbv beta iota delta [emit allowVar constraintOf uriCheckBody
                         String.eqb Ascii.eqb Bool.eqb].
  1-5: rewrite !Sat_assign_equal; simpl;
       rewrite ?E1, ?E2, ?E3, ?E4, ?E5 by tauto; reflexivity.
  rewrite !Sat_assign_some_equal. simpl.
  rewrite E6 by tauto. reflexivity.
Qed.

(** What follows the statements of a key is read without the names they
    bind, when it needs only the fact names. *)
Lemma Sat_emit_app (env : Env) (k : string) (hs : list string) (rest : ast.Body) :
  In k conditionKeys ->
  (forall env1, same_facts env env1 -> (Sat env1 rest <-> Sat env rest)) ->
  (Sat env (emit k (map ast.StringTerm hs) ++ rest)
   <-> Sat env (emit k (map ast.StringTerm hs)) /\ Sat env rest).
Proof.
  intros Hk Hr.
  known_key Hk;
    cbv beta iota delta [emit allowVar constraintOf uriCheckBody
                         String.eqb Ascii.eqb Bool.eqb];
    cbn [app].
  1-5: rewrite !Sat_assign_equal; cbn [Sat];
       rewrite Hr by (apply same_facts_bind; reflexivity); tauto.
  rewrite !Sat_assign_some_equal. cbn [Sat]. split.
  - intros (v0 & Hw & Hs). split; [exists v0; tauto | ].
    apply Hr in Hs; [exact Hs | ].
    eapply same_facts_trans; apply same_facts_bind; reflexivity.
  - intros ((v0 & Hw & _) & Hs). exists v0. split; [exact Hw | ].
    apply Hr; [ | exact Hs].
    eapply same_facts_trans; apply same_facts_bind; reflexivity.
Qed.

Lemma Sat_blocks_same_facts (obj : list (string * parser.Value)) :
  forall env env', same_facts env env' ->
    (Sat env (flat_map block obj) <-> Sat env' (flat_map block obj)).
Proof.
  induction obj as [ | [k v] obj IH]; intros env env' H; simpl; [reflexivity | ].
  destruct (block_shape k v) as [(_ & Hk & hs & ->) | [_ ->]]; [ | apply IH, H].
  rewrite !Sat_emit_app; auto.
  - rewrite (@Sat_emit_same_facts env env' k hs Hk H), (IH env env' H). reflexivity.
  - intros env1 H1. apply IH, same_facts_sym, H1.
  - intros env1 H1. apply IH, same_facts_sym, H1.
Qed.

Lemma Sat_blocks (obj : list (string * parser.Value)) (env : Env) :
  Sat env (flat_map block obj) <-> Forall (fun kv => Sat env (block kv)) obj.
Proof.
  induction obj as [ | [k v] obj IH]; simpl.
  - split; [constructor | reflexivity].
  - assert (C : Sat env (block (k, v) ++ flat_map block obj)
                <-> Sat env (block (k, v)) /\ Sat env (flat_map block obj)).
    { destruct (block_shape k v) as [(_ & Hk & hs & ->) | [_ ->]].
      - apply Sat_emit_app; [exact Hk | ].
        intros env1 H1. apply Sat_blocks_same_facts, same_facts_sym, H1.
      - simpl. tauto. }
    rewrite C, IH. split.
    + intros [H1 H2]. constructor; assumption.
    + intros H. inversion H; subst. auto.
Qed.

(** X12: read as the engine reads them, the statements that follow the
    prologue in a compiled rule hold exactly when, for every entry of the
    object, the statements its builder emits hold on their own: each
    condition is checked against the facts alone, and none can make up for
    another. *)
Theorem conditions_hold_together (obj : list (string * parser.Value)) (r : Rule)
    (aux : list Rule) (env : Env) :
  GenerateRule (parser.Object obj) = Ok (r, aux) ->
  exists conds,
    rule_body r = clientCertificateBaseBody ++ conds
    /\ (Sat env conds <->
        forall k v, In (k, v) obj ->
          exists f, addCondition k [] v = Ok f /\ Sat env f).
Proof.
  intros H.
  assert (O : forallb (fun kv => is_ok (fragment (fst kv) (snd kv))) obj = true).
  { rewrite <- GenerateRule_is_ok, H. reflexivity. }
  rewrite forallb_forall in O.
  apply GenerateRule_Ok in H as [-> ->]. cbn [rule_body].
  exists (flat_map block obj). split; [reflexivity | ].
  rewrite Sat_blocks, Forall_forall. split.
  - intros S k v Hin. specialize (S _ Hin). specialize (O _ Hin). simpl in O.
    destruct (block_shape k v) as [(F & _) | [F _]]; [ | congruence].
    exists (block (k, v)). split; [exact F | exact S].
  - intros S [k v] Hin. destruct (S k v Hin) as (f & F & Sf).
    unfold block. simpl. unfold fragment. rewrite F. exact Sf.
Qed.

(** X13: read as the engine reads them, the conditions of two rules
    compiled from the same entries visited in two orders hold under the
    same facts: the order of the keys changes the sequence of the
    statements, not what they assert. *)
Theorem meaning_order_independent (o1 o2 : list (string * parser.Value))
    (r1 r2 : Rule) (aux1 aux2 : list Rule) (env : Env) :
  Permutation o1 o2 ->
  GenerateRule (parser.Object o1) = Ok (r1, aux1) ->
  GenerateRule (parser.Object o2) = Ok (r2, aux2) ->
  exists conds1 conds2,
    rule_body r1 = clientCertificateBaseBody ++ conds1
    /\ rule_body r2 = clientCertificateBaseBody ++ conds2
    /\ (Sat env conds1 <-> Sat env conds2).
Proof.
  intros P H1 H2.
  apply GenerateRule_Ok in H1 as [-> ->], H2 as [-> ->]. cbn [rule_body].
  exists (flat_map block o1), (flat_map block o2).
  split; [reflexivity | split; [reflexivity | ]].
  rewrite !Sat_blocks. split; apply Permutation_Forall; [ | symmetry]; exact P.
Qed.


(** X14: an entry of the [uri] allow-list that does not hold [://] can
    match no certificate: the text compared with it always holds [://].
    So the empty string and a bare path, which the builder accepts when
    [url.Parse] does, make a condition that never holds when they are its
    only entries. *)
Theorem uri_entries_need_scheme_separator (f : Facts) (uris : list string) :
  (forall a, In a uris -> Contains a "://" -> False) ->
  (Sat (facts_env f)
       (ast.Assign (ast.VarTerm "allowed_san_uris")
          (ast.ArrayTerm (map ast.StringTerm uris)) :: uriCheckBody)
   <-> False).
Proof.
  intros H. rewrite Sat_uri. split; [ | intros []].
  intros (u & a & _ & Ha & ->). apply (H _ Ha).
  exists (Scheme u), (Host u ++ Path u)%string. reflexivity.
Qed.

End Criteria.

(** * Runs on concrete inputs *)

Abbreviation sample_GenerateRule :=
  (GenerateRule sample_mail_ParseAddress sample_net_ParseIP sample_url_Parse sample_fmt_v).
Abbreviation sample_addCondition :=
  (addCondition sample_mail_ParseAddress sample_net_ParseIP sample_url_Parse sample_fmt_v).
Abbreviation sample_stepOf :=
  (stepOf sample_mail_ParseAddress sample_net_ParseIP sample_url_Parse sample_fmt_v).

(** The examples of section 8 of the specification. *)

Example fingerprint_short_and_long :
  canonicalCertFingerprint sample_fmt_v (parser.String sample_short)
    = Ok (ast.StringTerm sample_short)
  /\ canonicalCertFingerprint sample_fmt_v (parser.String sample_long)
    = Ok (ast.StringTerm sample_short)
  /\ lower_no_colon sample_long = sample_short.
Proof. repeat split; vm_compute; reflexivity. Qed.

Example fingerprint_refused :
  is_ok (canonicalCertFingerprint sample_fmt_v (parser.String "e3:b0:c4")) = false
  /\ is_ok (canonicalCertFingerprint sample_fmt_v
              (parser.String (strings_ToLower sample_long))) = false
  /\ is_ok (canonicalCertFingerprint sample_fmt_v
              (parser.String (sample_short ++ "0"))) = false.
Proof. repeat split; vm_compute; reflexivity. Qed.

Example spki_hash_lengths :
  option_map (@List.length Byte.byte) (base64_DecodeString sample_base64_31) = Some 31
  /\ option_map (@List.length Byte.byte) (base64_DecodeString sample_base64_32) = Some 32
  /\ option_map (@List.length Byte.byte) (base64_DecodeString sample_base64_33) = Some 33
  /\ is_ok (spkiHashElement sample_fmt_v (parser.String sample_base64_31)) = false
  /\ spkiHashElement sample_fmt_v (parser.String sample_base64_32)
     = Ok (ast.StringTerm sample_base64_32)
  /\ is_ok (spkiHashElement sample_fmt_v (parser.String sample_base64_33)) = false
  /\ is_ok (spkiHashElement sample_fmt_v (parser.String "not base64!")) = false.
Proof. repeat split; vm_compute; reflexivity. Qed.

Example dns_names :
  is_ok (sanDNSElement sample_fmt_v (parser.String "a.example.com")) = true
  /\ is_ok (sanDNSElement sample_fmt_v (parser.String "-bad.example.com")) = false
  /\ is_ok (sanDNSElement sample_fmt_v (parser.String "a_b.example.com")) = true.
Proof. repeat split; vm_compute; reflexivity. Qed.

(** C1, the claim as written fails: one object, two orders of its keys,
    two different bodies. *)
Lemma GenerateRule_order_matters :
  same_object sample_fingerprint_dns sample_dns_fingerprint
  /\ exists r1 r2,
       sample_GenerateRule (parser.Object sample_fingerprint_dns) = Ok (r1, [])
       /\ sample_GenerateRule (parser.Object sample_dns_fingerprint) = Ok (r2, [])
       /\ nth_error (rule_body r1) 7
          = Some (ast.Assign (ast.VarTerm "allowed_fingerprints")
                    (ast.ArrayTerm [ast.StringTerm sample_short]))
       /\ nth_error (rule_body r2) 7
          = Some (ast.Assign (ast.VarTerm "allowed_san_dns_names")
                    (ast.ArrayTerm [ast.StringTerm "a.example.com"]))
       /\ (rule_body r1 = rule_body r2 -> False).
Proof.
  split.
  - split.
    + repeat constructor; simpl; intuition discriminate.
    + apply perm_swap.
  - eexists. eexists.
    split; [vm_compute; reflexivity | ].
    split; [vm_compute; reflexivity | ].
    split; [reflexivity | ].
    split; [reflexivity | ].
    cbn [rule_body]. intros H.
    apply (f_equal (fun b => nth_error b 7)) in H. vm_compute in H. discriminate H.
Qed.

(** The object of two keys, in its two orders: both compile, to bodies
    that hold the same statements. *)
Lemma GenerateRule_order_sample :
  Permutation sample_fingerprint_dns sample_dns_fingerprint
  /\ is_ok (sample_GenerateRule (parser.Object sample_fingerprint_dns))
     = is_ok (sample_GenerateRule (parser.Object sample_dns_fingerprint))
  /\ forall r1 aux1 r2 aux2,
       sample_GenerateRule (parser.Object sample_fingerprint_dns) = Ok (r1, aux1) ->
       sample_GenerateRule (parser.Object sample_dns_fingerprint) = Ok (r2, aux2) ->
       Permutation (rule_body r1) (rule_body r2).
Proof.
  assert (P : Permutation sample_fingerprint_dns sample_dns_fingerprint)
    by apply perm_swap.
  destruct (@GenerateRule_order sample_mail_ParseAddress sample_net_ParseIP
              sample_url_Parse sample_fmt_v _ _ P) as [E H].
  split; [exact P | split; [exact E | ]].
  intros r1 aux1 r2 aux2 H1 H2. apply (H r1 aux1 r2 aux2 H1 H2).
Defined.

(** The allow-list [spiffe://cluster/ns/default/sa/foo] and a certificate
    whose SAN URI is [spiffe://cluster/ns/default/sa/foo?x=1#frag]: the
    statements of the condition hold. *)
Lemma uri_condition_sample :
  Forall (fun u => sample_url_Parse u = true) [sample_uri]
  /\ addSanURICondition sample_url_Parse sample_fmt_v []
       (parser.Array [parser.String sample_uri])
     = Ok (ast.Assign (ast.VarTerm "allowed_san_uris")
             (ast.ArrayTerm [ast.StringTerm sample_uri]) :: uriCheckBody)
  /\ Sat (facts_env sample_facts)
       (ast.Assign (ast.VarTerm "allowed_san_uris")
          (ast.ArrayTerm [ast.StringTerm sample_uri]) :: uriCheckBody).
Proof.
  assert (F : Forall (fun u => sample_url_Parse u = true) [sample_uri])
    by (repeat constructor).
  destruct (@uri_condition sample_url_Parse sample_fmt_v [sample_uri] [] sample_facts F)
    as (E & S & _).
  split; [exact F | split; [exact E | ]].
  apply S. eexists. exists sample_uri.
  split; [left; reflexivity | split; [left; reflexivity | reflexivity]].
Defined.

(** A short fingerprint, then [zz], then a long fingerprint: the error is
    that of [zz]. *)
Lemma first_failing_element_sample :
  In "fingerprint" conditionKeys
  /\ Forall (fun v => is_ok (sample_stepOf "fingerprint" v) = true)
       [parser.String sample_short]
  /\ is_ok (sample_stepOf "fingerprint" (parser.String "zz")) = false
  /\ exists msg,
       sample_addCondition "fingerprint" []
         (parser.Array [parser.String sample_short; parser.String "zz";
                        parser.String sample_long]) = Err msg
       /\ Contains msg "zz" /\ Contains msg "fingerprint"
       /\ sample_GenerateRule
            (parser.Object
               [("dns", parser.String "a.example.com");
                ("fingerprint",
                 parser.Array [parser.String sample_short; parser.String "zz";
                               parser.String sample_long])]) = Err msg.
Proof.
  assert (K : In "fingerprint" conditionKeys) by (left; reflexivity).
  assert (P : Forall (fun v => is_ok (sample_stepOf "fingerprint" v) = true)
                [parser.String sample_short])
    by (repeat constructor).
  assert (B : is_ok (sample_stepOf "fingerprint" (parser.String "zz")) = false)
    by reflexivity.
  destruct (@first_failing_element sample_mail_ParseAddress sample_net_ParseIP
              sample_url_Parse sample_fmt_v "fingerprint"
              [parser.String sample_short] [parser.String sample_long]
              (parser.String "zz") [] K P B)
    as (msg & _ & A & C1 & C2 & _ & G).
  split; [exact K | split; [exact P | split; [exact B | ]]].
  exists msg. split; [apply A | split; [exact C1 | split; [exact C2 | ]]].
  apply (G [("dns", parser.String "a.example.com")] []). reflexivity.
Defined.

(** C6, the claim as written fails: the object holds the key
    [bogus_key], yet the error, that of the entry visited first, does not
    name it. *)
Lemma unsupported_key_not_named :
  In ("bogus_key", parser.String "x") sample_empty_then_bogus
  /\ mem "bogus_key" conditionKeys = false
  /\ sample_GenerateRule (parser.Object sample_empty_then_bogus)
     = Err "certificate fingerprint must not be empty"
  /\ (Contains "certificate fingerprint must not be empty" "bogus_key" -> False).
Proof.
  split; [right; left; reflexivity | ].
  split; [reflexivity | ].
  split; [reflexivity | ].
  intros H. apply containsb_Contains in H. vm_compute in H. discriminate H.
Qed.

(** The object [{"bogus_key": "x"}] and the bare string ["x"]. *)
Lemma unsupported_key_sample :
  In ("bogus_key", parser.String "x") [("bogus_key", parser.String "x")]
  /\ mem "bogus_key" conditionKeys = false
  /\ sample_GenerateRule (parser.Object [("bogus_key", parser.String "x")])
     = Err "unsupported certificate matcher condition: bogus_key"
  /\ Contains "unsupported certificate matcher condition: bogus_key" "bogus_key"
  /\ sample_GenerateRule (parser.String "x")
     = Err "expected object for certificate matcher, got: parser.String".
Proof.
  assert (I : In ("bogus_key", parser.String "x") [("bogus_key", parser.String "x")])
    by (left; reflexivity).
  assert (M : mem "bogus_key" conditionKeys = false) by reflexivity.
  destruct (@unsupported_key sample_mail_ParseAddress sample_net_ParseIP
              sample_url_Parse sample_fmt_v _ _ _ I M)
    as (_ & F & C & _ & N).
  split; [exact I | split; [exact M | ]].
  split; [apply (F [] []); reflexivity | split; [exact C | ]].
  apply (N (parser.String "x")). intros entries E. discriminate E.
Defined.

(** The [dns] condition on ["a.example.com"], on its one-element sequence
    and on an object. *)
Lemma bare_string_is_singleton_sample :
  In "dns" conditionKeys
  /\ sample_addCondition "dns" [] (parser.String "a.example.com")
     = sample_addCondition "dns" [] (parser.Array [parser.String "a.example.com"])
  /\ sample_addCondition "dns" [] (parser.Object [])
     = Err "certificate SAN dns condition expects a string or array of strings".
Proof.
  assert (K : In "dns" conditionKeys) by (simpl; tauto).
  destruct (@bare_string_is_singleton sample_mail_ParseAddress sample_net_ParseIP
              sample_url_Parse sample_fmt_v "dns" [] "a.example.com" K) as [E N].
  split; [exact K | split; [exact E | ]].
  apply (N (parser.Object [])); intros ? H; discriminate H.
Defined.

(** C8, the claim as written fails: the constraint of the [uri] condition
    refers to [san_uri_index], which is no fact name and which no
    assignment of the body binds. *)
Lemma uri_index_is_not_assigned :
  exists r,
    sample_GenerateRule (parser.Object [("uri", parser.String sample_uri)]) = Ok (r, [])
    /\ unboundRefs false factNames (rule_body r)
       = ["san_uri_index"; "san_uri_index"; "san_uri_index"]
    /\ mem "san_uri_index" factNames = false
    /\ mem "san_uri_index" (binders false (rule_body r)) = false
    /\ nth_error (rule_body r) 8 = Some (ast.SomeDecl [ast.VarTerm "san_uri_index"]).
Proof.
  eexists. split; [vm_compute; reflexivity | ].
  repeat split; vm_compute; reflexivity.
Qed.

(** With the [some] declaration counted, the body of the [uri] rule
    refers to bound names only. *)
Lemma constraints_refer_to_bound_names_sample :
  exists r,
    sample_GenerateRule (parser.Object [("uri", parser.String sample_uri)]) = Ok (r, [])
    /\ unboundRefs true factNames (rule_body r) = [].
Proof.
  eexists. split; [vm_compute; reflexivity | ].
  apply (@constraints_refer_to_bound_names sample_mail_ParseAddress sample_net_ParseIP
           sample_url_Parse sample_fmt_v
           (parser.Object [("uri", parser.String sample_uri)]) _ []).
  vm_compute. reflexivity.
Defined.

(** The [ip] condition on the empty sequence. *)
Lemma empty_sequence_builds_sample :
  In "ip" conditionKeys
  /\ sample_addCondition "ip" [] (parser.Array [])
     = Ok [ ast.Assign (ast.VarTerm "allowed_san_ip_addresses") (ast.ArrayTerm []);
            ast.Equal (ast.VarTerm "allowed_san_ip_addresses[_]")
                      (ast.VarTerm "san_ip_addresses[_]") ]
  /\ (Sat (facts_env sample_facts)
        [ ast.Assign (ast.VarTerm "allowed_san_ip_addresses") (ast.ArrayTerm []);
          ast.Equal (ast.VarTerm "allowed_san_ip_addresses[_]")
                    (ast.VarTerm "san_ip_addresses[_]") ] <-> False).
Proof.
  assert (K : In "ip" conditionKeys) by (simpl; tauto).
  destruct (@empty_sequence_builds sample_mail_ParseAddress sample_net_ParseIP
              sample_url_Parse sample_fmt_v "ip" [] (facts_env sample_facts) K)
    as (E & _ & _ & U).
  split; [exact K | split; [exact E | exact (U [])]].
Defined.

(** ** Runs of the further properties *)

(** A sequence whose second element is itself a sequence. *)
Lemma elements_must_be_strings_sample :
  In "fingerprint" conditionKeys
  /\ In (parser.Array [parser.String sample_short])
        [parser.String sample_short; parser.Array [parser.String sample_short]]
  /\ exists msg,
       sample_addCondition "fingerprint" []
         (parser.Array [parser.String sample_short;
                        parser.Array [parser.String sample_short]]) = Err msg.
Proof.
  assert (K : In "fingerprint" conditionKeys) by (left; reflexivity).
  assert (I : In (parser.Array [parser.String sample_short])
                [parser.String sample_short; parser.Array [parser.String sample_short]])
    by (right; left; reflexivity).
  split; [exact K | split; [exact I | ]].
  apply (@elements_must_be_strings sample_mail_ParseAddress sample_net_ParseIP
           sample_url_Parse sample_fmt_v "fingerprint" [] _ _ K I).
  intros s E. discriminate E.
Defined.

(** The base64 text of 32 zero bytes. *)
Lemma accepted_spki_hash_text_sample :
  spkiHashElement sample_fmt_v (parser.String sample_base64_32)
    = Ok (ast.StringTerm sample_base64_32)
  /\ List.length (filter (fun c => negb (is_newline c)) (chars sample_base64_32)) = 44.
Proof.
  assert (A : spkiHashElement sample_fmt_v (parser.String sample_base64_32)
              = Ok (ast.StringTerm sample_base64_32)) by reflexivity.
  split; [exact A | ].
  apply (@accepted_spki_hash_text sample_fmt_v sample_base64_32 _ A).
Defined.

(** The object of two keys holds two constraints and nine assignments. *)
Lemma statement_counts_sample :
  exists r,
    sample_GenerateRule (parser.Object sample_fingerprint_dns) = Ok (r, [])
    /\ count_expr is_Equal (rule_body r) = 2
    /\ count_expr is_Assign (rule_body r) = 9.
Proof.
  eexists. split; [vm_compute; reflexivity | ].
  destruct (@statement_counts sample_mail_ParseAddress sample_net_ParseIP
              sample_url_Parse sample_fmt_v sample_fingerprint_dns _ [] eq_refl)
    as (E & A & _).
  split; [exact E | exact A].
Defined.

Lemma names_bound_once_sample :
  NoDup (map fst sample_fingerprint_dns)
  /\ exists r,
       sample_GenerateRule (parser.Object sample_fingerprint_dns) = Ok (r, [])
       /\ NoDup (binders true (rule_body r)).
Proof.
  assert (N : NoDup (map fst sample_fingerprint_dns))
    by (repeat constructor; simpl; intuition discriminate).
  split; [exact N | ].
  eexists. split; [vm_compute; reflexivity | ].
  apply (@names_bound_once sample_mail_ParseAddress sample_net_ParseIP
           sample_url_Parse sample_fmt_v sample_fingerprint_dns _ [] N eq_refl).
Defined.

(** The error of the object whose first entry is an empty fingerprint is
    that entry's. *)
Lemma compile_error_origin_sample :
  sample_GenerateRule (parser.Object sample_empty_then_bogus)
    = Err "certificate fingerprint must not be empty"
  /\ exists before k v after,
       sample_empty_then_bogus = before ++ (k, v) :: after
       /\ forall b, sample_addCondition k b v
                    = Err "certificate fingerprint must not be empty".
Proof.
  assert (E : sample_GenerateRule (parser.Object sample_empty_then_bogus)
              = Err "certificate fingerprint must not be empty") by reflexivity.
  split; [exact E | ].
  destruct (@compile_error_origin sample_mail_ParseAddress sample_net_ParseIP
              sample_url_Parse sample_fmt_v _ _ E)
    as (before & k & v & after & Eo & _ & Ek & _).
  exists before, k, v, after. split; [exact Eo | exact Ek].
Defined.

(** The rule for the fingerprint of the sample certificate: its condition
    holds. *)
Lemma conditions_hold_together_sample :
  exists r,
    sample_GenerateRule (parser.Object [("fingerprint", parser.String sample_short)])
      = Ok (r, [])
    /\ exists conds,
         rule_body r = clientCertificateBaseBody ++ conds
         /\ Sat (facts_env sample_facts) conds.
Proof.
  eexists. split; [vm_compute; reflexivity | ].
  destruct (@conditions_hold_together sample_mail_ParseAddress sample_net_ParseIP
              sample_url_Parse sample_fmt_v
              [("fingerprint", parser.String sample_short)] _ []
              (facts_env sample_facts) eq_refl)
    as (conds & Eb & S).
  exists conds. split; [exact Eb | ].
  apply S. intros k v [[= <- <-] | []].
  eexists. split; [reflexivity | ].
  simpl. eexists. split; [left; reflexivity | ].
  split; [ | exact I].
  exists (RStr sample_short). simpl. auto.
Defined.

(** The two orders of the object of two keys, under the sample facts. *)
Lemma meaning_order_independent_sample :
  Permutation sample_fingerprint_dns sample_dns_fingerprint
  /\ exists r1 r2 conds1 conds2,
       sample_GenerateRule (parser.Object sample_fingerprint_dns) = Ok (r1, [])
       /\ sample_GenerateRule (parser.Object sample_dns_fingerprint) = Ok (r2, [])
       /\ rule_body r1 = clientCertificateBaseBody ++ conds1
       /\ rule_body r2 = clientCertificateBaseBody ++ conds2
       /\ (Sat (facts_env sample_facts) conds1 <-> Sat (facts_env sample_facts) conds2).
Proof.
  assert (P : Permutation sample_fingerprint_dns sample_dns_fingerprint)
    by apply perm_swap.
  split; [exact P | ].
  eexists. eexists.
  destruct (@meaning_order_independent sample_mail_ParseAddress sample_net_ParseIP
              sample_url_Parse sample_fmt_v
              sample_fingerprint_dns sample_dns_fingerprint _ _ [] []
              (facts_env sample_facts) P eq_refl eq_refl)
    as (c1 & c2 & E1 & E2 & S).
  exists c1, c2.
  split; [reflexivity | split; [reflexivity | split; [exact E1 | split; [exact E2 | exact S]]]].
Defined.

(** The empty string and a bare path as the only entries. *)
Lemma uri_entries_need_scheme_separator_sample :
  (forall a, In a [""; "/only/a/path"] -> Contains a "://" -> False)
  /\ (Sat (facts_env sample_facts)
        (ast.Assign (ast.VarTerm "allowed_san_uris")
           (ast.ArrayTerm (map ast.StringTerm [""; "/only/a/path"])) :: uriCheckBody)
      <-> False).
Proof.
  assert (H : forall a, In a [""; "/only/a/path"] -> Contains a "://" -> False).
  { intros a [<- | [<- | []]] C; apply containsb_Contains in C; discriminate C. }
  split; [exact H | ].
  apply (@uri_entries_need_scheme_separator sample_facts _ H).
Defined.

(** ** The empty string as a URI *)

(** [url.Parse] on some texts, whatever [parseAuthority] answers. *)
Example url_Parse_runs (parseAuthority : string -> bool) :
  map (url.Parse parseAuthority)
      [""; "*"; "/only/a/path"; "a:b"; "?x=1"; "#frag"; "%zz"; "a%2"; ":x"; "1a:b"; "#%zz"]
  = [true; true; true; true; true; true; false; false; false; false; false].
Proof. reflexivity. Qed.



